(** * The project store of the Drag&Drop demo, and the form that feeds it

    Sources embedded here:
    - [src/12-Projects/Drag&Drop/state/project-state.ts]: the classes
      [State] and [ProjectState] ([addListener], [addProject],
      [moveProject], [updateListeners]);
    - [src/unnamed/part_000]: [validate], the classes [Project] and
      [ProjectInput] ([gatherUserInput], [submitHandler], [clearInputs]),
      the enum [ProjectStatus] and the interface [UserInput].

    The first module gives the few ECMAScript built-ins the code calls
    ([String.prototype.trim], unary plus on a string,
    [Number.prototype.toString], the relational operators on numbers);
    the second is the validation decorator; the third is the store, over an
    explicit heap so that object identity and sharing are visible. *)

From Stdlib Require Import ZArith NArith List Decimal DecimalPos Lia.
From stdpp Require Import base tactics option list numbers strings.

(* ===================================================================== *)
(** ** ECMAScript built-ins used by the code *)
(* ===================================================================== *)

Module JS.

Local Open Scope Z_scope.

(** A JavaScript string is a sequence of UTF-16 code units; [length]
    counts code units. *)
Abbreviation jsstring := (list N) (only parsing).

(** Literals of the source, written in ASCII. *)
Definition js (s : string) : jsstring :=
  map Ascii.N_of_ascii (String.list_ascii_of_string s).
Arguments js s%_string.

(** WhiteSpace and LineTerminator code points, the set that
    [String.prototype.trim] and StringToNumber strip. *)
Definition isStrWhiteSpaceChar (c : N) : bool :=
  existsb (N.eqb c)
    [9; 10; 11; 12; 13; 32; 160; 5760; 8232; 8233; 8239; 8287; 12288; 65279]%N
  || ((8192 <=? c)%N && (c <=? 8202)%N).

Fixpoint trimStart (s : jsstring) : jsstring :=
  match s with
  | [] => []
  | c :: r => if isStrWhiteSpaceChar c then trimStart r else s
  end.

Definition trimEnd (s : jsstring) : jsstring := rev (trimStart (rev s)).

Definition trim (s : jsstring) : jsstring := trimEnd (trimStart s).

(** Numbers.  A finite value is kept as an exact decimal [m * 10^e]
    (every binary64 value is one).  The conversion from a string,
    [StringToNumber] below, rounds to binary64 as the standard says; the
    two zeros are one value, which none of the operations below tells
    apart. *)
Inductive number : Type :=
| NaN
| Infinity (negative : bool)
| Fin (m e : Z).

Definition of_Z (z : Z) : number := Fin z 0.
Definition of_nat (n : nat) : number := Fin (Z.of_nat n) 0.

Definition compare_fin (m1 e1 m2 e2 : Z) : comparison :=
  let e0 := Z.min e1 e2 in
  (m1 * 10 ^ (e1 - e0)) ?= (m2 * 10 ^ (e2 - e0)).

(** [None] is the "undefined" outcome of the abstract comparison, which
    every relational operator turns into [false]. *)
Definition num_compare (a b : number) : option comparison :=
  match a, b with
  | NaN, _ | _, NaN => None
  | Infinity s1, Infinity s2 =>
      Some (if s1 then (if s2 then Eq else Lt) else (if s2 then Gt else Eq))
  | Infinity s, Fin _ _ => Some (if s then Lt else Gt)
  | Fin _ _, Infinity s => Some (if s then Gt else Lt)
  | Fin m1 e1, Fin m2 e2 => Some (compare_fin m1 e1 m2 e2)
  end.

(** [a <= b] and [a >= b]. *)
Definition num_le (a b : number) : bool :=
  match num_compare a b with Some Lt | Some Eq => true | _ => false end.

Definition num_ge (a b : number) : bool :=
  match num_compare a b with Some Gt | Some Eq => true | _ => false end.

(** A finite number is an integer when its decimal has no fractional part. *)
Definition is_integer (x : number) : bool :=
  match x with
  | Fin m e => (0 <=? e) || (m mod 10 ^ (- e) =? 0)
  | _ => false
  end.

(** *** Decimal digits *)

Fixpoint uint_chars (u : Decimal.uint) : jsstring :=
  match u with
  | Decimal.Nil => []
  | Decimal.D0 u => 48%N :: uint_chars u
  | Decimal.D1 u => 49%N :: uint_chars u
  | Decimal.D2 u => 50%N :: uint_chars u
  | Decimal.D3 u => 51%N :: uint_chars u
  | Decimal.D4 u => 52%N :: uint_chars u
  | Decimal.D5 u => 53%N :: uint_chars u
  | Decimal.D6 u => 54%N :: uint_chars u
  | Decimal.D7 u => 55%N :: uint_chars u
  | Decimal.D8 u => 56%N :: uint_chars u
  | Decimal.D9 u => 57%N :: uint_chars u
  end.

(** The digits of a positive integer, most significant first. *)
Definition pos_chars (p : positive) : jsstring := uint_chars (Pos.to_uint p).

Definition nat_chars (n : nat) : jsstring :=
  match n with
  | O => [48%N]
  | S _ => pos_chars (Pos.of_nat n)
  end.

Fixpoint strip_zeros (s : jsstring) : jsstring :=
  match s with
  | 48%N :: r => strip_zeros r
  | _ => s
  end.

(** *** Number.prototype.toString (radix 10)

    For a positive finite value the standard takes integers [n], [k], [s]
    with [s] of [k] digits, no trailing zero, and value [s * 10^(n-k)],
    then lays the digits out by the position of the decimal point [n].
    The digits here are those of the decimal [m * 10^e] as it is given:
    where the standard would print the shortest decimal that reads back
    as the same binary64 value, that decimal is the one to pass.  The code
    prints a number for the identifier of a project and, in [validate],
    to see whether the text is blank. *)
Definition layout (digits : jsstring) (n : Z) : jsstring :=
  let k := Z.of_nat (length digits) in
  if (k <=? n) && (n <=? 21) then
    digits ++ repeat 48%N (Z.to_nat (n - k))
  else if (0 <? n) && (n <=? 21) then
    take (Z.to_nat n) digits ++ [46%N] ++ drop (Z.to_nat n) digits
  else if (-6 <? n) && (n <=? 0) then
    [48%N; 46%N] ++ repeat 48%N (Z.to_nat (- n)) ++ digits
  else
    let exponent :=
      [101%N] ++ [if n - 1 <? 0 then 45%N else 43%N]
      ++ nat_chars (Z.abs_nat (n - 1)) in
    if k =? 1 then digits ++ exponent
    else take 1 digits ++ [46%N] ++ drop 1 digits ++ exponent.

Definition pos_toString (p : positive) (e : Z) : jsstring :=
  let all := pos_chars p in
  let s := rev (strip_zeros (rev all)) in
  let zeros := Z.of_nat (length all) - Z.of_nat (length s) in
  layout s (Z.of_nat (length s) + zeros + e).

Definition NumberToString (x : number) : jsstring :=
  match x with
  | NaN => js "NaN"
  | Infinity false => js "Infinity"
  | Infinity true => js "-Infinity"
  | Fin Z0 _ => js "0"
  | Fin (Zpos p) e => pos_toString p e
  | Fin (Zneg p) e => 45%N :: pos_toString p e
  end.

(** *** StringToNumber, the conversion behind unary plus *)

Definition digit_of (radix : Z) (c : N) : option Z :=
  let d :=
    if (48 <=? c)%N && (c <=? 57)%N then Some (Z.of_N c - 48)
    else if (97 <=? c)%N && (c <=? 102)%N then Some (Z.of_N c - 87)
    else if (65 <=? c)%N && (c <=? 70)%N then Some (Z.of_N c - 55)
    else None in
  match d with
  | Some v => if v <? radix then Some v else None
  | None => None
  end.

(** Longest prefix of digits of the radix, with what follows it. *)
Fixpoint span_digits (radix : Z) (s : jsstring) : list Z * jsstring :=
  match s with
  | [] => ([], [])
  | c :: r =>
      match digit_of radix c with
      | Some v => let '(ds, rest) := span_digits radix r in (v :: ds, rest)
      | None => ([], s)
      end
  end.

Definition digits_value (radix : Z) (ds : list Z) : Z :=
  fold_left (fun acc d => acc * radix + d) ds 0.

(** ExponentPart, optional: [Some 0] when absent, [None] when malformed or
    followed by anything else. *)
Definition parse_exponent (s : jsstring) : option Z :=
  match s with
  | [] => Some 0
  | c :: r =>
      if (c =? 101)%N || (c =? 69)%N then
        let '(neg, r') :=
          match r with
          | 45%N :: t => (true, t)
          | 43%N :: t => (false, t)
          | _ => (false, r)
          end in
        match span_digits 10 r' with
        | ((_ :: _) as ds, []) =>
            Some (if neg then - digits_value 10 ds else digits_value 10 ds)
        | _ => None
        end
      else None
  end.

(** StrUnsignedDecimalLiteral without the Infinity case: mantissa and
    decimal exponent. *)
Definition parse_unsigned_decimal (s : jsstring) : option (Z * Z) :=
  let '(ip, r1) := span_digits 10 s in
  let '(fp, r2, dotted) :=
    match r1 with
    | 46%N :: t => let '(fp, r2) := span_digits 10 t in (fp, r2, true)
    | _ => ([], r1, false)
    end in
  match ip, fp with
  | [], [] => None
  | _, _ =>
      match parse_exponent r2 with
      | Some e => Some (digits_value 10 (ip ++ fp), e - Z.of_nat (length fp))
      | None => None
      end
  end.

(** *** Rounding to binary64

    The value of a numeric literal is rounded to the nearest binary64
    value, ties to the even mantissa; past the largest finite value it
    becomes an infinity.  A binary64 value is [q * 2^ex] with
    [q < 2^53] and [ex >= -1074]. *)

(** [a / b] rounded to the nearest integer, ties to even ([0 <= a],
    [0 < b]). *)
Definition round_half_even (a b : Z) : Z :=
  let q := a / b in
  match 2 * (a mod b) ?= b with
  | Lt => q
  | Gt => q + 1
  | Eq => if Z.even q then q else q + 1
  end.

(** The integer [k] with [2^k <= n / d < 2^(k+1)] ([0 < n], [0 < d]). *)
Definition floor_log2 (n d : Z) : Z :=
  let k0 := Z.log2 n - Z.log2 d in
  let reached :=
    if 0 <=? k0 then d * 2 ^ k0 <=? n else d <=? n * 2 ^ (- k0) in
  if reached then k0 else k0 - 1.

(** Trailing decimal zeros of the mantissa moved to the exponent. *)
Fixpoint strip_tens (fuel : nat) (m e : Z) : Z * Z :=
  match fuel with
  | O => (m, e)
  | S fuel' =>
      if m mod 10 =? 0 then strip_tens fuel' (m / 10) (e + 1) else (m, e)
  end.

(** [q * 2^ex] as a decimal ([0 < q]). *)
Definition dyadic (q ex : Z) : Z * Z :=
  let '(m, e) := if 0 <=? ex then (q * 2 ^ ex, 0) else (q * 5 ^ (- ex), ex) in
  strip_tens (Z.to_nat (Z.log2 m)) m e.

(** The binary64 value nearest to [n / d] ([0 < n], [0 < d]), with the
    sign given. *)
Definition binary64_ratio (negative : bool) (n d : Z) : number :=
  let k := floor_log2 n d in
  let ex := Z.max (k - 52) (-1074) in
  let q :=
    if 0 <=? ex then round_half_even n (d * 2 ^ ex)
    else round_half_even (n * 2 ^ (- ex)) d in
  if q =? 0 then Fin 0 0
  else if (971 <? ex) || ((ex =? 971) && (2 ^ 53 <=? q)) then
    Infinity negative
  else
    let '(m, e) := dyadic q ex in
    Fin (if negative then - m else m) e.

(** The binary64 value nearest to [m * 10^e]. *)
Definition binary64 (m e : Z) : number :=
  match m with
  | Z0 => Fin 0 0
  | _ =>
      if 0 <=? e then binary64_ratio (m <? 0) (Z.abs m * 10 ^ e) 1
      else binary64_ratio (m <? 0) (Z.abs m) (10 ^ (- e))
  end.

Definition parse_radix (radix : Z) (s : jsstring) : number :=
  match span_digits radix s with
  | ((_ :: _) as ds, []) => binary64 (digits_value radix ds) 0
  | _ => NaN
  end.

Definition parse_signed_decimal (s : jsstring) : number :=
  let '(neg, body) :=
    match s with
    | 45%N :: t => (true, t)
    | 43%N :: t => (false, t)
    | _ => (false, s)
    end in
  if bool_decide (body = js "Infinity") then Infinity neg
  else
    match parse_unsigned_decimal body with
    | Some (m, e) => binary64 (if neg then - m else m) e
    | None => NaN
    end.

Definition StringToNumber (str : jsstring) : number :=
  match trim str with
  | [] => Fin 0 0
  | 48%N :: 120%N :: r | 48%N :: 88%N :: r => parse_radix 16 r
  | 48%N :: 111%N :: r | 48%N :: 79%N :: r => parse_radix 8 r
  | 48%N :: 98%N :: r | 48%N :: 66%N :: r => parse_radix 2 r
  | s => parse_signed_decimal s
  end.

End JS.

Import JS.

(* ===================================================================== *)
(** ** The validation decorator ([validate], part_000 lines 20-53) *)
(* ===================================================================== *)

Module Validation.

(** [value: string | number]. *)
Inductive string_or_number : Type :=
| Str (s : jsstring)
| Num (n : number).

(** The interface [Validate]; an optional member that is absent is [None]. *)
Record Validate : Type := mkValidate {
  value : string_or_number;
  required : option bool;
  minLength : option number;
  maxLength : option number;
  min : option number;
  max : option number
}.

(** [input.value.toString()]. *)
Definition toString (v : string_or_number) : jsstring :=
  match v with
  | Str s => s
  | Num n => NumberToString n
  end.

(** [if (input.required)]: an absent member is falsy. *)
Definition truthy (b : option bool) : bool :=
  match b with
  | Some true => true
  | _ => false
  end.

Definition validate (input : Validate) : bool :=
  let isValid := true in
  let isValid :=
    if truthy (required input)
    then isValid && negb (length (trim (toString (value input))) =? 0)%nat
    else isValid in
  let isValid :=
    match minLength input, value input with
    | Some minLength, Str s =>
        isValid && num_ge (of_nat (length (trim s))) minLength
    | _, _ => isValid
    end in
  let isValid :=
    match maxLength input, value input with
    | Some maxLength, Str s =>
        isValid && num_le (of_nat (length (trim s))) maxLength
    | _, _ => isValid
    end in
  let isValid :=
    match min input, value input with
    | Some min, Num n => isValid && num_ge n min
    | _, _ => isValid
    end in
  let isValid :=
    match max input, value input with
    | Some max, Num n => isValid && num_le n max
    | _, _ => isValid
    end in
  isValid.

End Validation.

(* ===================================================================== *)
(** ** Records of the data model *)
(* ===================================================================== *)

(** [enum ProjectStatus { Active, Finished }]. *)
Inductive ProjectStatus : Type :=
| Active
| Finished.

#[global] Instance ProjectStatus_eq_dec : EqDecision ProjectStatus.
Proof. solve_decision. Defined.

(** [class Project], five public fields set by the constructor. *)
Module Project.
Record t : Type := mk {
  id : jsstring;
  title : jsstring;
  description : jsstring;
  people : number;
  status : ProjectStatus
}.

(** The assignment [prj.status = s]. *)
Definition with_status (s : ProjectStatus) (p : t) : t :=
  mk (id p) (title p) (description p) (people p) s.
End Project.

(** [interface UserInput]. *)
Module UserInput.
Record t : Type := mk {
  title : jsstring;
  description : jsstring;
  people : number
}.
End UserInput.

(* ===================================================================== *)
(** ** The store over an explicit heap *)
(* ===================================================================== *)

Module Store.

(** References: a [Project] object and an array are known by their
    identity, the position at which the heap allocated them.  A listener is
    known by the identity of the callback function. *)
Abbreviation loc := nat (only parsing).
Abbreviation aref := nat (only parsing).
Abbreviation Listener := nat (only parsing).

(** The state of the page.  [listeners] and [projects] are the two fields
    of the single [ProjectState] instance; [projects] holds a reference
    into [arrays] and is never reassigned.  A listener is an outside
    function: calling it is recorded in [calls] with the array it was
    handed.  The listeners of the page only read what they are handed
    (ProjectList.configure filters and renders), so a call leaves the
    rest of the state alone; what a consumer may later do to a snapshot is
    given by [array_assign] and [assign_status] below. *)
Record World : Type := mkWorld {
  objects : list Project.t;
  arrays : list (list loc);
  listeners : list Listener;
  projects : aref;
  calls : list (Listener * aref);
  console : list jsstring
}.

Definition set_objects (v : list Project.t) (w : World) : World :=
  mkWorld v (arrays w) (listeners w) (projects w) (calls w) (console w).
Definition set_arrays (v : list (list loc)) (w : World) : World :=
  mkWorld (objects w) v (listeners w) (projects w) (calls w) (console w).
Definition set_listeners (v : list Listener) (w : World) : World :=
  mkWorld (objects w) (arrays w) v (projects w) (calls w) (console w).
Definition set_calls (v : list (Listener * aref)) (w : World) : World :=
  mkWorld (objects w) (arrays w) (listeners w) (projects w) v (console w).
Definition set_console (v : list jsstring) (w : World) : World :=
  mkWorld (objects w) (arrays w) (listeners w) (projects w) (calls w) v.

(** *** Statements: a state monad over [World] *)

Definition M (A : Type) : Type := World -> A * World.

Definition ret {A : Type} (x : A) : M A := fun w => (x, w).

Definition bind {A B : Type} (m : M A) (k : A -> M B) : M B :=
  fun w => let '(x, w') := m w in k x w'.

Declare Scope stmt_scope.
Delimit Scope stmt_scope with stmt.
Notation "x <- m ;; k" := (bind m (fun x => k))
  (at level 20, m at level 99, k at level 200, only parsing) : stmt_scope.
Notation "m ;; k" := (bind m (fun _ => k))
  (at level 100, k at level 200, only parsing, right associativity)
  : stmt_scope.
Local Open Scope stmt_scope.

(** The world after a statement. *)
Definition after {A : Type} (m : M A) (w : World) : World := snd (m w).

(** [for (const x of xs) body]. *)
Fixpoint for_of {A : Type} (xs : list A) (body : A -> M unit) : M unit :=
  match xs with
  | [] => ret tt
  | x :: rest => body x ;; for_of rest body
  end.

(** [new Project(...)]: a fresh object. *)
Definition new_Project (p : Project.t) : M loc :=
  fun w => (length (objects w), set_objects (objects w ++ [p]) w).

(** [[...xs]]: a fresh array with the elements of [xs]. *)
Definition new_array (xs : list loc) : M aref :=
  fun w => (length (arrays w), set_arrays (arrays w ++ [xs]) w).

(** The elements of an array.  A reference the program holds always has
    its array and its object; the readers below answer nothing ([[]],
    [None], not found) on a reference that has none, a case no world of
    the page reaches. *)
Definition elements (a : aref) : M (list loc) :=
  fun w => (default [] (arrays w !! a), w).

(** [a.push(l)]. *)
Definition push (a : aref) (l : loc) : M unit :=
  fun w => (tt, set_arrays (alter (fun xs => xs ++ [l]) a (arrays w)) w).

(** [a.find(pred)]: the first element whose object satisfies [pred]. *)
Definition find (a : aref) (pred : Project.t -> bool) : M (option loc) :=
  fun w =>
    (List.find
       (fun l => match objects w !! l with Some p => pred p | None => false end)
       (default [] (arrays w !! a)),
     w).

(** [l.status]. *)
Definition read_status (l : loc) : M (option ProjectStatus) :=
  fun w => (Project.status <$> objects w !! l, w).

(** [l.status = s]. *)
Definition assign_status (l : loc) (s : ProjectStatus) : M unit :=
  fun w => (tt, set_objects (alter (Project.with_status s) l (objects w)) w).

(** Any in-place change of the array [a] (push, pop, splice, index
    assignment, ...): its elements become [xs]. *)
Definition array_assign (a : aref) (xs : list loc) : M unit :=
  fun w => (tt, set_arrays (<[a := xs]> (arrays w)) w).

(** [fn(a)]: the listener is called with the array. *)
Definition call (fn : Listener) (a : aref) : M unit :=
  fun w => (tt, set_calls (calls w ++ [(fn, a)]) w).

Definition this_listeners : M (list Listener) := fun w => (listeners w, w).
Definition this_projects : M aref := fun w => (projects w, w).

(** [console.log(line)]. *)
Definition console_log (line : jsstring) : M unit :=
  fun w => (tt, set_console (console w ++ [line]) w).

(** *** class State, class ProjectState *)

(** The world once [ProjectState.getInstance()] has built the one
    instance, at the load of the module: [listeners = []], and [projects]
    is the newly allocated empty array, the first of the heap. *)
Definition init : World := mkWorld [] [[]] [] 0 [] [].

Definition addListener (fn : Listener) : M unit :=
  fun w => (tt, set_listeners (listeners w ++ [fn]) w).

Definition updateListeners : M unit :=
  ls <- this_listeners ;;
  for_of ls (fun listenerFn =>
    ps <- this_projects ;;
    xs <- elements ps ;;
    copy <- new_array xs ;;
    call listenerFn copy).

(** [random] is the value of [Math.random()] in this call. *)
Definition addProject (random : number) (obj : UserInput.t) : M unit :=
  let id := NumberToString random in
  newProject <- new_Project
    (Project.mk id (UserInput.title obj) (UserInput.description obj)
       (UserInput.people obj) Active) ;;
  ps <- this_projects ;;
  push ps newProject ;;
  updateListeners.

Definition moveProject (projectId : jsstring) (newStatus : ProjectStatus)
  : M unit :=
  ps <- this_projects ;;
  currentProject <-
    find ps (fun prj => bool_decide (Project.id prj = projectId)) ;;
  match currentProject with
  | Some l =>
      st <- read_status l ;;
      match st with
      | Some s =>
          if bool_decide (s <> newStatus)
          then assign_status l newStatus ;; updateListeners
          else ret tt
      | None => ret tt
      end
  | None => ret tt
  end.

(** *** Runs of the store *)

Inductive Op : Type :=
| AddListener (fn : Listener)
| AddProject (random : number) (obj : UserInput.t)
| MoveProject (projectId : jsstring) (newStatus : ProjectStatus).

Definition exec (o : Op) : M unit :=
  match o with
  | AddListener fn => addListener fn
  | AddProject random obj => addProject random obj
  | MoveProject projectId newStatus => moveProject projectId newStatus
  end.

Definition run (ops : list Op) : M unit := for_of ops exec.

(** *** Reading a world *)

(** The store's sequence, as references and as records. *)
Definition contents (a : aref) (w : World) : list loc :=
  default [] (arrays w !! a).

Definition records (a : aref) (w : World) : list Project.t :=
  omap (fun l => objects w !! l) (contents a w).

Definition store_seq (w : World) : list loc := contents (projects w) w.
Definition store_records (w : World) : list Project.t :=
  records (projects w) w.

(** The record [moveProject] means by an id: the first of the store's
    sequence that carries it. *)
Definition first_with_id (projectId : jsstring) (w : World)
  : option Project.t :=
  List.find (fun prj => bool_decide (Project.id prj = projectId))
    (store_records w).

(** The listener calls made between [w] and a later [w']. *)
Definition new_calls (w w' : World) : list (Listener * aref) :=
  drop (length (calls w)) (calls w').

(** The random draws of the [addProject] calls of a run, in order. *)
Definition draws (ops : list Op) : list number :=
  omap (fun o => match o with AddProject r _ => Some r | _ => None end) ops.

(** The store's array is allocated. *)
Definition allocated (w : World) : Prop :=
  (projects w < length (arrays w))%nat.

End Store.

Import Store.
Local Open Scope stmt_scope.

(* ===================================================================== *)
(** ** The form component ([ProjectInput], part_000 lines 227-316) *)
(* ===================================================================== *)

Module ProjectInput.

Import Validation.

(** The component, as far as its handler reads it: the [value] of each of
    the three input elements. *)
Record t : Type := mk {
  titleInputEl : jsstring;
  descriptionInputEl : jsstring;
  peopleInputEl : jsstring
}.

Definition clearInputs (this : t) : t := mk [] [] [].

(** [void] is [None]. *)
Definition gatherUserInput (this : t)
  : M (option (jsstring * jsstring * number)) :=
  let title := titleInputEl this in
  let description := descriptionInputEl this in
  let people := peopleInputEl this in
  let titleValidator :=
    mkValidate (Str title) (Some true) None None None None in
  let descValidator :=
    mkValidate (Str description) (Some true) (Some (of_Z 5)) None None None in
  let peopleValidator :=
    mkValidate (Num (StringToNumber people)) (Some true) None None
      (Some (of_Z 1)) (Some (of_Z 5)) in
  if negb (validate titleValidator)
     || negb (validate descValidator)
     || negb (validate peopleValidator)
  then console_log (js "Input is wrong!") ;; ret None
  else ret (Some (title, description, StringToNumber people)).

(** The submit handler; [random] is what [Math.random()] returns if
    [addProject] comes to call it.  [event.preventDefault()] touches
    nothing modelled here.  The [addProject] of part_000 is that of
    project-state.ts with the loop of [updateListeners] written in place. *)
Definition submitHandler (random : number) (this : t) : M t :=
  userInput <- gatherUserInput this ;;
  match userInput with
  | Some (title, desc, people) =>
      addProject random (UserInput.mk title desc people) ;;
      ret (clearInputs this)
  | None => ret this
  end.

(** What the form accepts, said without [validate]: a title that is not
    blank, a description of five or more code units once trimmed, and a
    people count whose number is at least 1 and at most 5. *)
Definition accepts (this : t) : bool :=
  negb (length (trim (titleInputEl this)) =? 0)%nat
  && (5 <=? length (trim (descriptionInputEl this)))%nat
  && num_ge (StringToNumber (peopleInputEl this)) (of_Z 1)
  && num_le (StringToNumber (peopleInputEl this)) (of_Z 5).

(** The rule as the specification words it: title not empty, description
    of length five or more, people count an integer from 1 to 5. *)
Definition spec_valid (this : t) : bool :=
  negb (length (titleInputEl this) =? 0)%nat
  && (5 <=? length (descriptionInputEl this))%nat
  && is_integer (StringToNumber (peopleInputEl this))
  && num_ge (StringToNumber (peopleInputEl this)) (of_Z 1)
  && num_le (StringToNumber (peopleInputEl this)) (of_Z 5).

End ProjectInput.

(* ===================================================================== *)
(** ** Definitions used to state the properties *)
(* ===================================================================== *)

(** The project of the specification's example scenario. *)
Definition shed : UserInput.t :=
  UserInput.mk (js "Build shed") (js "Wooden shed construction") (of_Z 3).

(** A string whose first code unit is not white space. *)
Definition starts_visibly (s : jsstring) : Prop :=
  exists c r, s = c :: r /\ isStrWhiteSpaceChar c = false.

(** The record a [new Project] in [addProject] builds. *)
Definition fresh_project (random : number) (obj : UserInput.t) : Project.t :=
  Project.mk (NumberToString random) (UserInput.title obj)
    (UserInput.description obj) (UserInput.people obj) Active.

(** A world after one round of notification: one new array per listener,
    each with the elements of the store's array, and one call per
    listener. *)
Definition notified (w : World) : World :=
  mkWorld (objects w)
    (arrays w ++ replicate (length (listeners w)) (store_seq w))
    (listeners w) (projects w)
    (calls w ++ zip (listeners w)
                    (seq (length (arrays w)) (length (listeners w))))
    (console w).

(** The world between the two halves of [addProject]: record allocated and
    pushed, listeners not yet told. *)
Definition pushed (random : number) (obj : UserInput.t) (w : World) : World :=
  set_arrays
    (alter (fun xs => xs ++ [length (objects w)]) (projects w) (arrays w))
    (set_objects (objects w ++ [fresh_project random obj]) w).

(** The reference [find] returns in [moveProject]. *)
Definition target (projectId : jsstring) (w : World) : option loc :=
  fst (find (projects w)
         (fun prj => bool_decide (Project.id prj = projectId)) w).

(** The world between the two halves of an effective [moveProject]. *)
Definition moved (l : loc) (newStatus : ProjectStatus) (w : World) : World :=
  set_objects (alter (Project.with_status newStatus) l (objects w)) w.

(** The store's array is allocated and lists every object ever created,
    in the order of creation. *)
Definition wf (w : World) : Prop :=
  allocated w /\ store_seq w = seq 0 (length (objects w)).

(** A store with one listener whose only record was already moved to
    [Finished]. *)
Definition finished_world : World :=
  after (run [AddListener 7; AddProject (Fin 5 (-1)) shed;
              MoveProject (js "0.5") Finished]) init.

(** What can happen on the page: the store is called, or a consumer
    changes an array it was handed, or sets the status of a record. *)
Inductive Action : Type :=
| Store_call (o : Op)
| Consumer_array (a : aref) (xs : list loc)
| Consumer_status (l : loc) (s : ProjectStatus).

(** A consumer holds no array but those it was called with. *)
Definition act (x : Action) : M unit :=
  match x with
  | Store_call o => exec o
  | Consumer_array a xs =>
      fun w =>
        if bool_decide (a ∈ (calls w).*2) then array_assign a xs w
        else (tt, w)
  | Consumer_status l s => assign_status l s
  end.

Definition play (xs : list Action) : M unit := for_of xs act.

(** The store calls among the actions, in order. *)
Definition store_ops (xs : list Action) : list Op :=
  omap (fun x => match x with Store_call o => Some o | _ => None end) xs.

(** Every array handed to a listener exists, is not the store's own array,
    and was handed out once. *)
Definition handed_out_once (w : World) : Prop :=
  allocated w
  /\ Forall (fun a => a < length (arrays w) /\ a <> projects w) (calls w).*2
  /\ NoDup (calls w).*2.

(* ===================================================================== *)
(** ** The rest of the page: checks, singleton, list views *)
(* ===================================================================== *)

(** The five tests of [validate], one by one. *)
Module Checks.

Import Validation.

Definition check_required (input : Validate) : bool :=
  if truthy (required input)
  then negb (length (trim (toString (value input))) =? 0)%nat
  else true.

Definition check_minLength (input : Validate) : bool :=
  match minLength input, value input with
  | Some k, Str s => num_ge (of_nat (length (trim s))) k
  | _, _ => true
  end.

Definition check_maxLength (input : Validate) : bool :=
  match maxLength input, value input with
  | Some k, Str s => num_le (of_nat (length (trim s))) k
  | _, _ => true
  end.

Definition check_min (input : Validate) : bool :=
  match min input, value input with
  | Some k, Num n => num_ge n k
  | _, _ => true
  end.

Definition check_max (input : Validate) : bool :=
  match max input, value input with
  | Some k, Num n => num_le n k
  | _, _ => true
  end.

(** [a] asks no more than [b] of the same value: every rule of [a] is a
    rule of [b]. *)
Definition relaxes (a b : Validate) : Prop :=
  value a = value b
  /\ (truthy (required a) = true -> truthy (required b) = true)
  /\ (minLength a = None \/ minLength a = minLength b)
  /\ (maxLength a = None \/ maxLength a = maxLength b)
  /\ (min a = None \/ min a = min b)
  /\ (max a = None \/ max a = max b).

End Checks.

(** [ProjectState.getInstance] (project-state.ts lines 17-29) over the
    class-level state: the arrays allocated so far, the [ProjectState]
    objects built so far, and the static field [instance]. *)
Module Singleton.

(** A [ProjectState] object: its two fields. *)
Record Instance : Type := mkInstance {
  listeners : list Listener;
  projects : aref
}.

Record Realm : Type := mkRealm {
  arrays : list (list loc);
  instances : list Instance;
  instance : option nat
}.

(** [new ProjectState()]: the field initialisers give [listeners = []]
    and a newly allocated empty array for [projects]. *)
Definition new_ProjectState (r : Realm) : nat * Realm :=
  (length (instances r),
   mkRealm (arrays r ++ [[]])
     (instances r ++ [mkInstance [] (length (arrays r))])
     (instance r)).

Definition getInstance (r : Realm) : nat * Realm :=
  match instance r with
  | Some i => (i, r)
  | None =>
      let '(i, r') := new_ProjectState r in
      (i, mkRealm (arrays r') (instances r') (Some i))
  end.

(** [n] calls in a row: what each returned, and the state left. *)
Fixpoint getInstance_times (n : nat) (r : Realm) : list nat * Realm :=
  match n with
  | O => ([], r)
  | S k =>
      let '(i, r1) := getInstance r in
      let '(rest, r2) := getInstance_times k r1 in
      (i :: rest, r2)
  end.

(** Nothing loaded yet. *)
Definition boot : Realm := mkRealm [] [] None.

(** The page as the store [i] sees it, before any project or call. *)
Definition world_of (r : Realm) (i : nat) : option World :=
  match instances r !! i with
  | Some o => Some (mkWorld [] (arrays r) (listeners o) (projects o) [] [])
  | None => None
  end.

End Singleton.

(** [class ProjectList] (part_000 lines 172-223): the listener it
    registers in [configure], and [renderProjects]. *)
Module ProjectList.

(** ['active' | 'finished']. *)
Inductive kind : Type :=
| active
| finished.

(** The component, as far as its listener goes: its [type], the array
    [assignedProjects], and the [li] elements of its list, each known by
    its [textContent]. *)
Record t : Type := mk {
  type : kind;
  assignedProjects : list loc;
  items : list jsstring
}.

(** A new list shows nothing. *)
Definition create (type : kind) : t := mk type [] [].

(** The test inside [projects.filter]. *)
Definition relevant (this : t) (project : Project.t) : bool :=
  match type this with
  | active => bool_decide (Project.status project = Active)
  | finished => bool_decide (Project.status project = Finished)
  end.

(** [renderProjects]: empty the list, then append one item per assigned
    project, with its title. *)
Definition renderProjects (this : t) (w : World) : t :=
  let listEl : list jsstring := [] in
  let listEl :=
    fold_left
      (fun listEl prjItem =>
         match objects w !! prjItem with
         | Some p => listEl ++ [Project.title p]
         | None => listEl
         end)
      (assignedProjects this) listEl in
  mk (type this) (assignedProjects this) listEl.

(** The listener: called with the array [projects] in the world [w]. *)
Definition listener (this : t) (projects : aref) (w : World) : t :=
  let relevantProjects :=
    List.filter
      (fun l => match objects w !! l with
                | Some project => relevant this project
                | None => false
                end)
      (contents projects w) in
  renderProjects (mk (type this) relevantProjects (items this)) w.

(** The status a list of the given type shows. *)
Definition wanted (k : kind) : ProjectStatus :=
  match k with
  | active => Active
  | finished => Finished
  end.

End ProjectList.

(** [deepEqualCompare] (exercises.ts lines 576-581): [a === b] on the
    values its type admits, strings, booleans and numbers. *)
Module Exercises.

Inductive primitive : Type :=
| PString (s : jsstring)
| PBoolean (b : bool)
| PNumber (n : number).

(** [===]: same type and same value; [NaN] equals nothing. *)
Definition strict_equal (a b : primitive) : bool :=
  match a, b with
  | PString s, PString t => bool_decide (s = t)
  | PBoolean x, PBoolean y => Bool.eqb x y
  | PNumber x, PNumber y =>
      match num_compare x y with Some Eq => true | _ => false end
  | _, _ => false
  end.

Definition deepEqualCompare (a b : primitive) : bool := strict_equal a b.

End Exercises.

(** The part of a record that is set at creation. *)
Definition core (p : Project.t)
  : list N * list N * list N * number :=
  (Project.id p, Project.title p, Project.description p, Project.people p).

(** The records the [addProject] calls among the actions create, in
    order. *)
Definition created (xs : list Action) : list Project.t :=
  omap (fun x => match x with
                 | Store_call (AddProject random obj) =>
                     Some (fresh_project random obj)
                 | _ => None
                 end) xs.

(** The object an effective [moveProject] changes, if the call is
    effective: [find] returns it and its status differs. *)
Definition effective (projectId : jsstring) (newStatus : ProjectStatus)
           (w : World) : option loc :=
  match target projectId w with
  | Some l =>
      match objects w !! l with
      | Some p =>
          if bool_decide (Project.status p <> newStatus) then Some l else None
      | None => None
      end
  | None => None
  end.

(** What a list of type [k] ought to show for the store as it is in [w]:
    the references of the store's sequence whose record has the status of
    the list, and the titles of those records, in the store's order. *)
Definition view (k : ProjectList.kind) (w : World) : ProjectList.t :=
  ProjectList.mk k
    (List.filter
       (fun l => match objects w !! l with
                 | Some p => bool_decide (Project.status p = ProjectList.wanted k)
                 | None => false
                 end)
       (store_seq w))
    (Project.title
       <$> List.filter
             (fun p => bool_decide (Project.status p = ProjectList.wanted k))
             (store_records w)).

(** The page with its lists (part_000 lines 172-223 and 319-321): the
    store as before, and the [ProjectList] components, each with the
    listener it registered in [configure].  Here a call of a listener is
    not only logged: the lists that registered it run their listener at
    that moment, on the heap as it then is, so that what a list shows
    depends on what the store had written when it called.  The store of
    part_000 has [addListener] and [addProject], which are those of
    project-state.ts; an event that calls [moveProject] puts the store of
    project-state.ts behind the same lists. *)
Module Page.

Record t : Type := mk {
  world : World;
  lists : list (Listener * ProjectList.t)
}.

Definition PM (A : Type) : Type := t -> A * t.

Definition ret {A : Type} (x : A) : PM A := fun pg => (x, pg).

Definition bind {A B : Type} (m : PM A) (k : A -> PM B) : PM B :=
  fun pg => let '(x, pg') := m pg in k x pg'.

Declare Scope page_scope.
Delimit Scope page_scope with page.
Notation "x <- m ;; k" := (bind m (fun x => k))
  (at level 20, m at level 99, k at level 200, only parsing) : page_scope.
Notation "m ;; k" := (bind m (fun _ => k))
  (at level 100, k at level 200, only parsing, right associativity)
  : page_scope.
Local Open Scope page_scope.

Definition after {A : Type} (m : PM A) (pg : t) : t := (m pg).2.

Fixpoint for_of {A : Type} (xs : list A) (body : A -> PM unit) : PM unit :=
  match xs with
  | [] => ret tt
  | x :: rest => body x ;; for_of rest body
  end.

(** A statement of the store, run on the page. *)
Definition lift {A : Type} (m : M A) : PM A :=
  fun pg => let '(x, w) := m (world pg) in (x, mk w (lists pg)).

(** [listenerFn(copy)]: the call is logged and every list that registered
    [listenerFn] runs its listener, now. *)
Definition call (listenerFn : Listener) (copy : aref) : PM unit :=
  fun pg =>
    let w := Store.after (Store.call listenerFn copy) (world pg) in
    (tt,
     mk w
       (map (fun entry =>
               if Nat.eqb entry.1 listenerFn
               then (entry.1, ProjectList.listener entry.2 copy w)
               else entry)
          (lists pg))).

Definition addListener (fn : Listener) : PM unit :=
  lift (Store.addListener fn).

Definition updateListeners : PM unit :=
  ls <- lift this_listeners ;;
  for_of ls (fun listenerFn =>
    ps <- lift this_projects ;;
    xs <- lift (elements ps) ;;
    copy <- lift (new_array xs) ;;
    call listenerFn copy).

Definition addProject (random : number) (obj : UserInput.t) : PM unit :=
  let id := NumberToString random in
  newProject <- lift (new_Project
    (Project.mk id (UserInput.title obj) (UserInput.description obj)
       (UserInput.people obj) Active)) ;;
  ps <- lift this_projects ;;
  lift (push ps newProject) ;;
  updateListeners.

Definition moveProject (projectId : jsstring) (newStatus : ProjectStatus)
  : PM unit :=
  ps <- lift this_projects ;;
  currentProject <-
    lift (find ps (fun prj => bool_decide (Project.id prj = projectId))) ;;
  match currentProject with
  | Some l =>
      st <- lift (read_status l) ;;
      match st with
      | Some s =>
          if bool_decide (s <> newStatus)
          then lift (assign_status l newStatus) ;; updateListeners
          else ret tt
      | None => ret tt
      end
  | None => ret tt
  end.

(** [new ProjectList(type)]: [configure] registers the listener, a new
    function, known by an identity no listener has yet; the list shows
    nothing until it is called. *)
Definition new_ProjectList (type : ProjectList.kind) : PM Listener :=
  fun pg =>
    let fn := S (max_list (listeners (world pg) ++ (lists pg).*1)) in
    (fn,
     mk (Store.after (Store.addListener fn) (world pg))
        (lists pg ++ [(fn, ProjectList.create type)])).

(** [submitHandler] of [ProjectInput], on the page. *)
Definition submitHandler (random : number) (this : ProjectInput.t)
  : PM ProjectInput.t :=
  userInput <- lift (ProjectInput.gatherUserInput this) ;;
  match userInput with
  | Some (title, desc, people) =>
      addProject random (UserInput.mk title desc people) ;;
      ret (ProjectInput.clearInputs this)
  | None => ret this
  end.

Definition exec (o : Op) : PM unit :=
  match o with
  | AddListener fn => addListener fn
  | AddProject random obj => addProject random obj
  | MoveProject projectId newStatus => moveProject projectId newStatus
  end.

(** What happens on the page: a list is built, the form is submitted
    with some fields, the store is called, or a consumer acts. *)
Inductive Event : Type :=
| New_list (type : ProjectList.kind)
| Submit (random : number) (this : ProjectInput.t)
| Other (x : Action).

Definition step (e : Event) : PM unit :=
  match e with
  | New_list type => new_ProjectList type ;; ret tt
  | Submit random this => submitHandler random this ;; ret tt
  | Other (Store_call o) => exec o
  | Other x => lift (act x)
  end.

Definition play (es : list Event) : PM unit := for_of es step.

(** The page before anything is built; and the page of part_000 once
    loaded, with its active and its finished list. *)
Definition start : t := mk init [].

Definition loaded : t :=
  after (play [New_list ProjectList.active; New_list ProjectList.finished])
    start.

End Page.

(** The lists after a round of notification of the listeners [ls] in a
    world whose store reads as [w]: those registered under one of [ls]
    show the view of [w], the others are as they were. *)
Definition refresh (ls : list Listener) (w : World)
           (lists : list (Listener * ProjectList.t))
  : list (Listener * ProjectList.t) :=
  map (fun entry =>
         if bool_decide (entry.1 ∈ ls)
         then (entry.1, view (ProjectList.type entry.2) w)
         else entry)
    lists.

(** What holds of every page that can be reached. *)
Definition page_ok (pg : Page.t) : Prop :=
  wf (Page.world pg) /\ handed_out_once (Page.world pg)
  /\ Forall (fun fn => fn ∈ listeners (Page.world pg)) (Page.lists pg).*1.

(* ===================================================================== *)
(** ** The definitions at work *)
(* ===================================================================== *)

Example trim_ex : trim (js "  ab c ") = js "ab c".
Proof. reflexivity. Qed.

Example toNumber_ex1 : StringToNumber (js " 2.5 ") = Fin 25 (-1).
Proof. reflexivity. Qed.

Example toNumber_ex2 : StringToNumber (js "") = Fin 0 0.
Proof. reflexivity. Qed.

Example toNumber_ex3 : StringToNumber (js "1e3") = Fin 1 3.
Proof. reflexivity. Qed.

Example toNumber_ex4 : StringToNumber (js "0x1F") = Fin 31 0.
Proof. reflexivity. Qed.

Example toNumber_ex5 : StringToNumber (js "abc") = NaN.
Proof. reflexivity. Qed.

Example toNumber_ex6 : StringToNumber (js "-.5e+1") = Fin (-5) 0.
Proof. reflexivity. Qed.

Example toNumber_ex7 : StringToNumber (js "1.") = Fin 1 0.
Proof. reflexivity. Qed.

Example toNumber_ex8 : StringToNumber (js ".") = NaN.
Proof. reflexivity. Qed.

(** Rounding to binary64: to nearest, ties to even; overflow and
    underflow. *)
Example toNumber_ex9 : StringToNumber (js "5.0000000000000001") = Fin 5 0.
Proof. vm_compute. reflexivity. Qed.

Example toNumber_ex10 : StringToNumber (js "0.99999999999999999") = Fin 1 0.
Proof. vm_compute. reflexivity. Qed.

Example toNumber_ex11 :
  StringToNumber (js "9007199254740993") = Fin 9007199254740992 0.
Proof. vm_compute. reflexivity. Qed.

Example toNumber_ex12 :
  StringToNumber (js "9007199254740995") = Fin 9007199254740996 0.
Proof. vm_compute. reflexivity. Qed.

Example toNumber_ex13 : StringToNumber (js "1e400") = Infinity false.
Proof. vm_compute. reflexivity. Qed.

Example toNumber_ex14 : StringToNumber (js "-1e-400") = Fin 0 0.
Proof. vm_compute. reflexivity. Qed.

Example toNumber_ex15 :
  StringToNumber (js "0.1")
  = Fin 1000000000000000055511151231257827021181583404541015625 (-55).
Proof. vm_compute. reflexivity. Qed.

Example toNumber_ex16 :
  StringToNumber (js "1.7976931348623158e308")
  = StringToNumber (js "1.7976931348623157e308")
  /\ StringToNumber (js "1.7976931348623159e308") = Infinity false.
Proof. vm_compute. split; reflexivity. Qed.

Example toString_ex1 : NumberToString (Fin 25 (-1)) = js "2.5".
Proof. reflexivity. Qed.

Example toString_ex2 : NumberToString (Fin (-1200) 0) = js "-1200".
Proof. reflexivity. Qed.

Example toString_ex3 : NumberToString (Fin 1 21) = js "1e+21".
Proof. reflexivity. Qed.

Example toString_ex4 : NumberToString (Fin 123 (-9)) = js "1.23e-7".
Proof. reflexivity. Qed.

Example toString_ex5 : NumberToString (Fin 5 (-3)) = js "0.005".
Proof. reflexivity. Qed.

Example toString_ex6 : NumberToString (Fin 12 3) = js "12000".
Proof. reflexivity. Qed.

Example compare_ex : num_le (Fin 25 (-1)) (of_Z 5) = true /\ num_ge NaN (of_Z 1) = false.
Proof. split; reflexivity. Qed.

Example run_ex1 :
  let w := after (run [AddListener 7; AddListener 8; AddProject (Fin 5 (-1)) shed])
             init in
  calls w = [(7, 1); (8, 2)]
  /\ arrays w = [[0]; [0]; [0]]
  /\ Project.id <$> store_records w = [js "0.5"].
Proof. repeat split. Qed.

Example run_ex2 :
  let w := after (run [AddListener 7; AddProject (Fin 5 (-1)) shed;
                       MoveProject (js "0.5") Finished;
                       MoveProject (js "0.5") Finished;
                       MoveProject (js "nope") Finished]) init in
  calls w = [(7, 1); (7, 2)]
  /\ Project.status <$> store_records w = [Finished].
Proof. repeat split. Qed.

Example submit_ex1 :
  let this := ProjectInput.mk (js "Build shed") (js "Wooden shed") (js "3") in
  let '(this', w) := ProjectInput.submitHandler (Fin 5 (-1)) this init in
  this' = ProjectInput.mk [] [] []
  /\ store_records w
     = [Project.mk (js "0.5") (js "Build shed") (js "Wooden shed") (Fin 3 0)
          Active]
  /\ console w = [].
Proof. vm_compute. repeat split. Qed.

Example submit_ex2 :
  let this := ProjectInput.mk (js "Build shed") (js "shed") (js "3") in
  let '(this', w) := ProjectInput.submitHandler (Fin 5 (-1)) this init in
  this' = this /\ store_records w = [] /\ console w = [js "Input is wrong!"].
Proof. vm_compute. repeat split. Qed.

Example submit_ex3 :
  let this := ProjectInput.mk (js "Build shed") (js "Wooden shed") (js "six") in
  let '(this', w) := ProjectInput.submitHandler (Fin 5 (-1)) this init in
  this' = this /\ store_records w = [] /\ console w = [js "Input is wrong!"].
Proof. vm_compute. repeat split. Qed.

(** The people field is compared after the conversion: a text a little
    over five, or a little under one, that converts to 5, or to 1, is
    accepted, and the record holds the converted number. *)
Example submit_ex4 :
  let over := ProjectInput.mk (js "Shed") (js "Wooden") (js "5.0000000000000001") in
  let under := ProjectInput.mk (js "Shed") (js "Wooden") (js "0.99999999999999999") in
  let more := ProjectInput.mk (js "Shed") (js "Wooden") (js "5.000000000000001") in
  store_records (ProjectInput.submitHandler (Fin 5 (-1)) over init).2
  = [Project.mk (js "0.5") (js "Shed") (js "Wooden") (Fin 5 0) Active]
  /\ store_records (ProjectInput.submitHandler (Fin 5 (-1)) under init).2
     = [Project.mk (js "0.5") (js "Shed") (js "Wooden") (Fin 1 0) Active]
  /\ store_records (ProjectInput.submitHandler (Fin 5 (-1)) more init).2 = [].
Proof. vm_compute. repeat split. Qed.

(** The page of part_000: two lists, then two accepted submissions and a
    rejected one between them. *)
Example page_ex1 :
  let pg := Page.after
              (Page.play
                 [Page.Submit (Fin 5 (-1))
                    (ProjectInput.mk (js " Shed ") (js "Wooden") (js "2"));
                  Page.Submit (Fin 25 (-2))
                    (ProjectInput.mk (js "") (js "Wooden") (js "2"));
                  Page.Submit (Fin 75 (-2))
                    (ProjectInput.mk (js "Barn") (js "Bricks") (js "4"))])
              Page.loaded in
  Page.lists pg
  = [(1%nat, ProjectList.mk ProjectList.active [0%nat; 1%nat]
               [js " Shed "; js "Barn"]);
     (2%nat, ProjectList.mk ProjectList.finished [] [])]
  /\ console (Page.world pg) = [js "Input is wrong!"].
Proof. vm_compute. repeat split. Qed.

(** With the store of project-state.ts behind the lists, a move takes the
    project from the one list to the other. *)
Example page_ex2 :
  let pg := Page.after
              (Page.play
                 [Page.Submit (Fin 5 (-1))
                    (ProjectInput.mk (js "Shed") (js "Wooden") (js "2"));
                  Page.Submit (Fin 75 (-2))
                    (ProjectInput.mk (js "Barn") (js "Bricks") (js "4"));
                  Page.Other (Store_call (MoveProject (js "0.5") Finished))])
              Page.loaded in
  Page.lists pg
  = [(1%nat, ProjectList.mk ProjectList.active [1%nat] [js "Barn"]);
     (2%nat, ProjectList.mk ProjectList.finished [0%nat] [js "Shed"])].
Proof. vm_compute. reflexivity. Qed.

(* ===================================================================== *)
(** ** Facts about the built-ins *)
(* ===================================================================== *)

Section BuiltinFacts.

Lemma trimStart_nil_iff (s : jsstring) :
  trimStart s = [] <-> forallb isStrWhiteSpaceChar s = true.
Proof.
  induction s as [|c r IH]; simpl; [tauto|].
  destruct (isStrWhiteSpaceChar c); simpl; [exact IH|].
  split; discriminate.
Qed.

Lemma trimStart_fixed (s : jsstring) :
  forallb isStrWhiteSpaceChar (trimStart s) = true -> trimStart s = [].
Proof.
  induction s as [|c r IH]; simpl; [reflexivity|].
  destruct (isStrWhiteSpaceChar c) eqn:E; [exact IH|].
  simpl. rewrite E. discriminate.
Qed.

Lemma forallb_rev {A : Type} (f : A -> bool) (l : list A) :
  forallb f (rev l) = forallb f l.
Proof.
  induction l as [|x l IH]; simpl; [reflexivity|].
  rewrite forallb_app, IH. simpl. rewrite andb_true_r. apply andb_comm.
Qed.

Lemma rev_nil_iff {A : Type} (l : list A) : rev l = [] <-> l = [].
Proof.
  split; intros H.
  - rewrite <- (rev_involutive l), H. reflexivity.
  - subst. reflexivity.
Qed.

(** [trim] leaves nothing exactly when every code unit is white space. *)
Lemma trim_nil_iff (s : jsstring) :
  trim s = [] <-> forallb isStrWhiteSpaceChar s = true.
Proof.
  unfold trim, trimEnd.
  etransitivity; [apply rev_nil_iff|].
  rewrite trimStart_nil_iff, forallb_rev.
  split; intros H.
  - apply trimStart_nil_iff, trimStart_fixed, H.
  - apply trimStart_nil_iff in H. rewrite H. reflexivity.
Qed.

Lemma trim_head_kept (c : N) (r : jsstring) :
  isStrWhiteSpaceChar c = false -> trim (c :: r) <> [].
Proof.
  intros Hc H. apply trim_nil_iff in H. simpl in H. rewrite Hc in H.
  discriminate.
Qed.

Lemma strip_zeros_last (l : jsstring) (c : N) :
  c <> 48%N -> exists l', strip_zeros (l ++ [c]) = l' ++ [c].
Proof.
  intros Hc. induction l as [|d l IH]; simpl.
  - exists []. destruct c as [|p]; [reflexivity|].
    do 6 (destruct p; try reflexivity). congruence.
  - destruct IH as [l' IH].
    assert (Hd : d = 48%N \/ strip_zeros (d :: l ++ [c]) = d :: l ++ [c]).
    { destruct d as [|p]; [right; reflexivity|].
      do 6 (destruct p; try (right; reflexivity)). left. reflexivity. }
    destruct Hd as [-> | Hd].
    + exists l'. exact IH.
    + exists (d :: l). exact Hd.
Qed.

Lemma to_uint_normal (p : positive) :
  Decimal.unorm (Pos.to_uint p) = Pos.to_uint p.
Proof.
  pose proof (DecimalPos.Unsigned.to_of (Pos.to_uint p)) as H.
  rewrite DecimalPos.Unsigned.of_to in H. symmetry. exact H.
Qed.

Lemma nzhead_not_D0 (d u : Decimal.uint) : Decimal.nzhead d <> Decimal.D0 u.
Proof. induction d; simpl; try discriminate. exact IHd. Qed.

(** The decimal of a positive integer starts with a digit from 1 to 9. *)
Lemma pos_chars_head (p : positive) :
  exists c r, pos_chars p = c :: r /\ c <> 48%N
              /\ isStrWhiteSpaceChar c = false.
Proof.
  unfold pos_chars.
  pose proof (to_uint_normal p) as Hn.
  pose proof (DecimalPos.Unsigned.to_uint_nonnil p) as Hnil.
  pose proof (DecimalPos.Unsigned.to_uint_nonzero p) as Hzero.
  destruct (Pos.to_uint p) as [|u|u|u|u|u|u|u|u|u|u] eqn:E;
    try congruence;
    try (simpl; eexists _, _;
         split; [reflexivity|split; [discriminate|reflexivity]]).
  exfalso. unfold Decimal.unorm in Hn. simpl in Hn.
  destruct (Decimal.nzhead u) eqn:Hu;
    try (eapply nzhead_not_D0; rewrite Hu; exact Hn).
  apply Hzero. symmetry. exact Hn.
Qed.

Lemma layout_starts (c : N) (t : jsstring) (n : Z) :
  isStrWhiteSpaceChar c = false -> starts_visibly (layout (c :: t) n).
Proof.
  intros Hc. unfold layout.
  destruct ((Z.of_nat (length (c :: t)) <=? n)%Z && (n <=? 21)%Z).
  { exists c, (t ++ repeat 48%N (Z.to_nat (n - Z.of_nat (length (c :: t))))).
    split; [reflexivity|exact Hc]. }
  destruct ((0 <? n)%Z && (n <=? 21)%Z) eqn:E2.
  { apply andb_true_iff in E2 as [Hn _]. apply Z.ltb_lt in Hn.
    destruct (Z.to_nat n) as [|k] eqn:Ek; [lia|].
    simpl. eexists _, _. split; [reflexivity|exact Hc]. }
  destruct ((-6 <? n)%Z && (n <=? 0)%Z).
  { eexists _, _. split; [reflexivity|reflexivity]. }
  destruct (Z.of_nat (length (c :: t)) =? 1)%Z; simpl; eexists _, _;
    (split; [reflexivity|exact Hc]).
Qed.

Lemma pos_toString_starts (p : positive) (e : Z) :
  starts_visibly (pos_toString p e).
Proof.
  unfold pos_toString.
  destruct (pos_chars_head p) as (c & r & -> & Hc & Hws).
  simpl rev at 2.
  destruct (strip_zeros_last (rev r) c Hc) as [l' ->].
  rewrite rev_app_distr. simpl. apply layout_starts, Hws.
Qed.

Lemma NumberToString_starts (x : number) : starts_visibly (NumberToString x).
Proof.
  destruct x as [|[]|[|p|p] e]; simpl;
    try (eexists _, _; split; [reflexivity|reflexivity]).
  apply pos_toString_starts.
Qed.

(** The decimal string of a number is never blank, so the [required] test
    of [validate] always passes on a number. *)
Lemma NumberToString_not_blank (x : number) :
  (length (trim (NumberToString x)) =? 0)%nat = false.
Proof.
  destruct (NumberToString_starts x) as (c & r & -> & Hc).
  pose proof (trim_head_kept c r Hc) as H.
  destruct (trim (c :: r)); [congruence|reflexivity].
Qed.

Lemma num_ge_of_nat (n : nat) (k : nat) :
  num_ge (of_nat n) (of_Z (Z.of_nat k)) = (k <=? n)%nat.
Proof.
  unfold num_ge, of_nat, of_Z. simpl. unfold compare_fin. simpl.
  rewrite !Z.mul_1_r.
  destruct (Z.compare_spec (Z.of_nat n) (Z.of_nat k)) as [H|H|H];
    symmetry; [apply Nat.leb_le|apply Nat.leb_gt|apply Nat.leb_le]; lia.
Qed.

(** What "at least 1 and at most 5" means on a finite number
    [m * 10^e]: for an integer it is [1 <= m <= 5], and with [k] decimals
    it is [10^k <= m <= 5 * 10^k]. *)
Lemma between_1_and_5 (m e : Z) :
  (e <= 0)%Z ->
  num_ge (Fin m e) (of_Z 1) && num_le (Fin m e) (of_Z 5)
  = ((10 ^ (- e) <=? m)%Z && (m <=? 5 * 10 ^ (- e))%Z).
Proof.
  intros He. unfold num_ge, num_le, num_compare, compare_fin, of_Z.
  rewrite Z.min_l by exact He.
  rewrite Z.sub_diag, Z.sub_0_l, Z.pow_0_r, Z.mul_1_r, Z.mul_1_l.
  f_equal.
  destruct (Z.compare_spec m (10 ^ (- e))) as [H|H|H];
    symmetry; [apply Z.leb_le|apply Z.leb_gt|apply Z.leb_le]; lia.
Qed.

Lemma between_1_and_5_integer (z : Z) :
  num_ge (of_Z z) (of_Z 1) && num_le (of_Z z) (of_Z 5)
  = ((1 <=? z)%Z && (z <=? 5)%Z).
Proof. apply (between_1_and_5 z 0). lia. Qed.

Lemma not_a_number_fails (x : number) :
  num_ge NaN x = false /\ num_le NaN x = false.
Proof. split; reflexivity. Qed.

End BuiltinFacts.

(* ===================================================================== *)
(** ** How the store's methods act on a world *)
(* ===================================================================== *)

Section StoreFacts.

Lemma notify_loop (ls : list Listener) :
  forall w, allocated w ->
    after (for_of ls (fun listenerFn =>
             ps <- this_projects ;;
             xs <- elements ps ;;
             copy <- new_array xs ;;
             call listenerFn copy)) w
    = mkWorld (objects w)
        (arrays w ++ replicate (length ls) (store_seq w))
        (listeners w) (projects w)
        (calls w ++ zip ls (seq (length (arrays w)) (length ls)))
        (console w).
Proof.
  induction ls as [|fn ls IH]; intros w Hw.
  - destruct w; unfold after; simpl. rewrite !app_nil_r. reflexivity.
  - unfold after in *. simpl. unfold bind at 1. simpl.
    set (w1 := set_calls _ _).
    assert (Hw1 : allocated w1).
    { unfold allocated, w1 in *. simpl. rewrite length_app. simpl. lia. }
    specialize (IH w1 Hw1). rewrite IH. unfold w1, store_seq, contents. simpl.
    unfold allocated in Hw.
    rewrite lookup_app_l by exact Hw.
    rewrite length_app. simpl.
    rewrite <- !app_assoc. simpl.
    replace (length (arrays w) + 1) with (S (length (arrays w))) by lia.
    reflexivity.
Qed.

Lemma updateListeners_allocated (w : World) :
  allocated w -> updateListeners w = (tt, notified w).
Proof.
  intros Hw. pose proof (notify_loop (listeners w) w Hw) as H.
  unfold updateListeners, bind, this_listeners. unfold after in H.
  destruct (for_of _ _ w) as [[] w'] eqn:E. simpl in H. subst w'.
  reflexivity.
Qed.

Lemma pushed_allocated (random : number) (obj : UserInput.t) (w : World) :
  allocated w -> allocated (pushed random obj w).
Proof. unfold allocated, pushed. simpl. rewrite length_alter. auto. Qed.

Lemma addProject_allocated (random : number) (obj : UserInput.t) (w : World) :
  allocated w ->
  addProject random obj w = (tt, notified (pushed random obj w)).
Proof.
  intros Hw. unfold addProject, bind. simpl.
  apply (updateListeners_allocated (pushed random obj w)).
  apply pushed_allocated, Hw.
Qed.

Lemma target_Some (projectId : jsstring) (w : World) (l : loc) :
  target projectId w = Some l ->
  allocated w /\ l ∈ store_seq w
  /\ exists p, objects w !! l = Some p /\ Project.id p = projectId.
Proof.
  unfold target, find. simpl. intros H.
  apply find_some in H as [Hin Hp].
  split.
  - unfold allocated. destruct (arrays w !! projects w) eqn:E.
    + apply lookup_lt_Some in E. exact E.
    + simpl in Hin. destruct Hin.
  - split; [apply list_elem_of_In, Hin|].
    destruct (objects w !! l) as [p|]; [|discriminate].
    exists p. split; [reflexivity|]. apply bool_decide_eq_true in Hp. exact Hp.
Qed.

(** [moveProject], case by case. *)
Lemma moveProject_cases (projectId : jsstring) (newStatus : ProjectStatus)
      (w : World) :
  moveProject projectId newStatus w =
  match target projectId w with
  | Some l =>
      match objects w !! l with
      | Some p =>
          if bool_decide (Project.status p <> newStatus)
          then (tt, notified (moved l newStatus w))
          else (tt, w)
      | None => (tt, w)
      end
  | None => (tt, w)
  end.
Proof.
  unfold moveProject, bind, this_projects.
  destruct (find _ _ w) as [cur w0] eqn:Ef.
  assert (Hw0 : w0 = w) by (unfold find in Ef; congruence).
  assert (Hcur : cur = target projectId w) by (unfold target; rewrite Ef; reflexivity).
  subst w0. rewrite <- Hcur. destruct cur as [l|]; [|reflexivity].
  symmetry in Hcur. apply target_Some in Hcur as (Hal & _ & p & Hp & _).
  unfold read_status. rewrite Hp. simpl.
  destruct (bool_decide _); [|reflexivity].
  unfold assign_status.
  apply (updateListeners_allocated (moved l newStatus w)). exact Hal.
Qed.

Lemma after_moveProject (projectId : jsstring) (newStatus : ProjectStatus)
      (w : World) :
  after (moveProject projectId newStatus) w =
  match target projectId w with
  | Some l =>
      match objects w !! l with
      | Some p =>
          if bool_decide (Project.status p <> newStatus)
          then notified (moved l newStatus w)
          else w
      | None => w
      end
  | None => w
  end.
Proof.
  unfold after. rewrite moveProject_cases.
  destruct (target projectId w) as [l|]; [|reflexivity].
  destruct (objects w !! l) as [p|]; [|reflexivity].
  destruct (bool_decide _); reflexivity.
Qed.

Lemma store_seq_notified (w : World) :
  allocated w -> store_seq (notified w) = store_seq w.
Proof.
  intros Hw. unfold store_seq, contents, notified. simpl.
  rewrite lookup_app_l by exact Hw. reflexivity.
Qed.

Lemma new_calls_notified (w w1 : World) :
  calls w1 = calls w ->
  new_calls w (notified w1)
  = zip (listeners w1) (seq (length (arrays w1)) (length (listeners w1))).
Proof.
  intros H. unfold new_calls, notified. simpl. rewrite H.
  apply drop_app_length.
Qed.

Lemma zip_seq_fst {A : Type} (ls : list A) (n : nat) :
  (zip ls (seq n (length ls))).*1 = ls.
Proof. apply fst_zip. rewrite length_seq. lia. Qed.

Lemma zip_seq_snd {A : Type} (ls : list A) (n : nat) :
  (zip ls (seq n (length ls))).*2 = seq n (length ls).
Proof. apply snd_zip. rewrite length_seq. lia. Qed.

(** Every array handed out in a round holds the store's elements. *)
Lemma contents_notified (w : World) (a : aref) :
  allocated w ->
  a ∈ seq (length (arrays w)) (length (listeners w)) ->
  contents a (notified w) = store_seq w.
Proof.
  intros Hw Ha. apply elem_of_seq in Ha as [Hlo Hhi].
  unfold contents, notified. simpl.
  rewrite lookup_app_r by lia.
  rewrite lookup_replicate_2 by lia. reflexivity.
Qed.

Lemma find_omap {A B : Type} (f : A -> option B) (P : B -> bool) (l : list A) :
  List.find P (omap f l)
  = List.find (fun x => match f x with Some y => P y | None => false end) l
      ≫= f.
Proof.
  induction l as [|x l IH]; simpl; [reflexivity|].
  destruct (f x) as [y|] eqn:E; simpl; [|exact IH].
  destruct (P y); simpl; [symmetry; exact E|exact IH].
Qed.

(** The record meant by an id is the object behind what [find] returns. *)
Lemma first_with_id_target (projectId : jsstring) (w : World) :
  first_with_id projectId w
  = target projectId w ≫= (fun l => objects w !! l).
Proof. unfold first_with_id, store_records, records. apply find_omap. Qed.

Lemma first_with_id_Some (projectId : jsstring) (w : World) (p : Project.t) :
  first_with_id projectId w = Some p ->
  exists l, target projectId w = Some l /\ objects w !! l = Some p.
Proof.
  rewrite first_with_id_target.
  destruct (target projectId w) as [l|]; simpl; [|discriminate].
  intros H. exists l. split; [reflexivity|exact H].
Qed.



Lemma length_omap_alter {A : Type} (f : A -> A) (i : nat) (xs : list A)
      (ls : list nat) :
  length (omap (fun l => alter f i xs !! l) ls)
  = length (omap (fun l => xs !! l) ls).
Proof.
  induction ls as [|x ls IH]; [reflexivity|].
  cbn [omap list_omap]. rewrite list_lookup_alter.
  destruct (decide (i = x)) as [->|Hne];
    destruct (xs !! x); cbn [fmap option_fmap option_map length];
    rewrite IH; reflexivity.
Qed.

(** What a round of notification does in any world, allocated or not. *)
Lemma notify_loop_any (ls : list Listener) :
  forall w w',
    w' = after (for_of ls (fun listenerFn =>
                  ps <- this_projects ;;
                  xs <- elements ps ;;
                  copy <- new_array xs ;;
                  call listenerFn copy)) w ->
    objects w' = objects w /\ listeners w' = listeners w
    /\ projects w' = projects w /\ console w' = console w
    /\ exists arefs, length arefs = length ls
                     /\ calls w' = calls w ++ zip ls arefs.
Proof.
  induction ls as [|fn ls IH]; intros w w' ->.
  - simpl. repeat split. exists []. split; [reflexivity|].
    simpl. rewrite app_nil_r. reflexivity.
  - unfold after in *. simpl. unfold bind at 1. simpl.
    set (w1 := set_calls _ _).
    destruct (IH w1 _ eq_refl) as (Ho & Hl & Hp & Hc & arefs & Hlen & Hcalls).
    split; [exact Ho|]. split; [exact Hl|].
    split; [exact Hp|]. split; [exact Hc|].
    exists (length (arrays w) :: arefs). split; [simpl; lia|].
    transitivity (calls w1 ++ zip ls arefs); [exact Hcalls|].
    unfold w1. simpl. rewrite <- app_assoc. reflexivity.
Qed.

Lemma updateListeners_any (w : World) :
  objects (after updateListeners w) = objects w
  /\ listeners (after updateListeners w) = listeners w
  /\ projects (after updateListeners w) = projects w
  /\ console (after updateListeners w) = console w
  /\ (new_calls w (after updateListeners w)).*1 = listeners w.
Proof.
  destruct (notify_loop_any (listeners w) w _ eq_refl)
    as (Ho & Hl & Hp & Hc & arefs & Hlen & Hcalls).
  unfold updateListeners, bind, this_listeners, after in *. simpl in *.
  repeat split; try assumption.
  unfold new_calls. rewrite Hcalls, drop_app_length.
  apply fst_zip. lia.
Qed.

Lemma addProject_any (random : number) (obj : UserInput.t) (w : World) :
  objects (after (addProject random obj) w)
  = objects w ++ [fresh_project random obj]
  /\ listeners (after (addProject random obj) w) = listeners w
  /\ projects (after (addProject random obj) w) = projects w
  /\ console (after (addProject random obj) w) = console w
  /\ (new_calls w (after (addProject random obj) w)).*1 = listeners w.
Proof.
  destruct (updateListeners_any (pushed random obj w))
    as (Ho & Hl & Hp & Hc & Hcalls).
  unfold addProject, bind, after in *. simpl in *.
  repeat split; assumption.
Qed.

Lemma moveProject_any (projectId : jsstring) (newStatus : ProjectStatus)
      (w : World) :
  let w' := after (moveProject projectId newStatus) w in
  listeners w' = listeners w /\ projects w' = projects w
  /\ console w' = console w
  /\ (objects w' <> objects w -> (new_calls w w').*1 = listeners w).
Proof.
  intros w'. subst w'. rewrite after_moveProject.
  destruct (target projectId w) as [l|]; [|repeat split; congruence].
  destruct (objects w !! l) as [p|]; [|repeat split; congruence].
  destruct (bool_decide _); [|repeat split; congruence].
  repeat split. intros _.
  rewrite new_calls_notified by reflexivity. simpl. apply zip_seq_fst.
Qed.

(** Every operation that changes the objects calls every registered
    listener once, in registration order. *)
Lemma exec_calls (o : Op) (w : World) :
  let w' := after (exec o) w in
  objects w' <> objects w -> (new_calls w w').*1 = listeners w.
Proof.
  destruct o as [fn|random obj|projectId newStatus]; simpl.
  - intros H. destruct H. reflexivity.
  - intros _. apply addProject_any.
  - apply moveProject_any.
Qed.

(** Listeners are never removed. *)
Lemma exec_listeners (o : Op) (w : World) (fn : Listener) :
  fn ∈ listeners w -> fn ∈ listeners (after (exec o) w).
Proof.
  destruct o as [fn'|random obj|projectId newStatus]; simpl; intros H.
  - unfold after, addListener. simpl. apply elem_of_app. left. exact H.
  - destruct (addProject_any random obj w) as (_ & -> & _). exact H.
  - destruct (moveProject_any projectId newStatus w) as (-> & _). exact H.
Qed.

Lemma run_cons (o : Op) (ops : list Op) (w : World) :
  after (run (o :: ops)) w = after (run ops) (after (exec o) w).
Proof.
  unfold after, run. simpl. unfold bind.
  destruct (exec o w) as [[] w1]. reflexivity.
Qed.

Lemma find_ext_in {A : Type} (f g : A -> bool) (l : list A) :
  (forall x, f x = g x) -> List.find f l = List.find g l.
Proof.
  intros H. induction l as [|x l IH]; simpl; [reflexivity|].
  rewrite H, IH. reflexivity.
Qed.

(** After an effective move, [find] meets the same object, now with the
    new status. *)
Lemma target_moved (projectId : jsstring) (s : ProjectStatus) (w : World)
      (l : loc) (p : Project.t) :
  target projectId w = Some l -> objects w !! l = Some p ->
  target projectId (notified (moved l s w)) = Some l
  /\ objects (notified (moved l s w)) !! l = Some (Project.with_status s p).
Proof.
  intros Ht Hl. split.
  - pose proof (target_Some _ _ _ Ht) as (Hal & _).
    rewrite <- Ht. unfold target, find. simpl.
    rewrite lookup_app_l by exact Hal.
    apply find_ext_in. intros x. rewrite list_lookup_alter.
    case_decide as Hx; [|reflexivity].
    subst x. rewrite Hl. reflexivity.
  - simpl. rewrite list_lookup_alter_eq, Hl. reflexivity.
Qed.

End StoreFacts.

(* ===================================================================== *)
(** ** Worlds the store can be in *)
(* ===================================================================== *)

Section Reachable.

Lemma wf_init : wf init.
Proof. split; [unfold allocated; simpl; lia|reflexivity]. Qed.

Lemma omap_lookup_seq_from {A : Type} (l : list A) :
  forall pre : list A,
    omap (fun j => (pre ++ l) !! j) (seq (length pre) (length l)) = l.
Proof.
  induction l as [|x l IH]; intros pre; [reflexivity|].
  cbn [length seq omap list_omap].
  rewrite list_lookup_middle by reflexivity.
  f_equal.
  specialize (IH (pre ++ [x])).
  rewrite length_app, <- app_assoc in IH. simpl in IH.
  replace (length pre + 1) with (S (length pre)) in IH by lia.
  exact IH.
Qed.

Lemma omap_lookup_seq {A : Type} (l : list A) :
  omap (fun j => l !! j) (seq 0 (length l)) = l.
Proof. apply (omap_lookup_seq_from l []). Qed.

(** In a well-formed world the store's records are all the objects. *)
Lemma wf_records (w : World) : wf w -> store_records w = objects w.
Proof.
  intros [_ Hseq]. unfold store_records, records.
  change (contents (projects w) w) with (store_seq w).
  rewrite Hseq. apply omap_lookup_seq.
Qed.

Lemma store_seq_pushed (random : number) (obj : UserInput.t) (w : World) :
  allocated w ->
  store_seq (pushed random obj w) = store_seq w ++ [length (objects w)].
Proof.
  intros Hal. unfold store_seq, contents, pushed. simpl.
  rewrite list_lookup_alter_eq.
  destruct (lookup_lt_is_Some_2 (arrays w) (projects w) Hal) as [xs Hxs].
  rewrite Hxs. reflexivity.
Qed.

Lemma wf_notified (w : World) : wf w -> wf (notified w).
Proof.
  intros [Hal Hseq]. split.
  - unfold allocated in *. simpl. rewrite length_app. lia.
  - rewrite store_seq_notified by exact Hal. exact Hseq.
Qed.

Lemma wf_pushed (random : number) (obj : UserInput.t) (w : World) :
  wf w -> wf (pushed random obj w).
Proof.
  intros [Hal Hseq]. split; [apply pushed_allocated, Hal|].
  rewrite store_seq_pushed by exact Hal. rewrite Hseq. simpl.
  rewrite length_app. simpl.
  replace (length (objects w) + 1) with (S (length (objects w))) by lia.
  rewrite seq_S. reflexivity.
Qed.

Lemma wf_moved (l : loc) (s : ProjectStatus) (w : World) :
  wf w -> wf (moved l s w).
Proof.
  intros [Hal Hseq]. split; [exact Hal|].
  unfold moved. simpl. rewrite length_alter. exact Hseq.
Qed.

Lemma wf_exec (o : Op) (w : World) : wf w -> wf (after (exec o) w).
Proof.
  intros Hw. destruct o as [fn|random obj|projectId newStatus]; simpl.
  - exact Hw.
  - unfold after. rewrite addProject_allocated by apply Hw.
    apply wf_notified, wf_pushed, Hw.
  - rewrite after_moveProject.
    destruct (target projectId w) as [l|]; [|exact Hw].
    destruct (objects w !! l) as [p|]; [|exact Hw].
    destruct (bool_decide _); [|exact Hw].
    apply wf_notified, wf_moved, Hw.
Qed.

Lemma fmap_id_alter (l : loc) (s : ProjectStatus) (xs : list Project.t) :
  Project.id <$> alter (Project.with_status s) l xs = Project.id <$> xs.
Proof.
  apply list_eq. intros i. rewrite !list_lookup_fmap, list_lookup_alter.
  case_decide as Hi; [|reflexivity].
  subst i. destruct (xs !! l); reflexivity.
Qed.

(** The ids of all objects grow, at each operation, by the decimal string
    of what [Math.random()] returned if the operation was [addProject]. *)
Lemma exec_ids (o : Op) (w : World) :
  Project.id <$> objects (after (exec o) w)
  = (Project.id <$> objects w) ++ (NumberToString <$> draws [o]).
Proof.
  destruct o as [fn|random obj|projectId newStatus]; simpl.
  - rewrite app_nil_r. reflexivity.
  - destruct (addProject_any random obj w) as (-> & _).
    rewrite fmap_app. reflexivity.
  - rewrite app_nil_r, after_moveProject.
    destruct (target projectId w) as [l|]; [|reflexivity].
    destruct (objects w !! l) as [p|]; [|reflexivity].
    destruct (bool_decide _); [|reflexivity].
    simpl. apply fmap_id_alter.
Qed.

End Reachable.

(* ===================================================================== *)
(** ** Arrays handed to listeners *)
(* ===================================================================== *)

Section Sharing.

Lemma handed_init : handed_out_once init.
Proof.
  split; [unfold allocated; simpl; lia|].
  split; [apply Forall_nil_2|apply NoDup_nil_2].
Qed.

Lemma handed_notified (w : World) :
  handed_out_once w -> handed_out_once (notified w).
Proof.
  intros (Hal & Hall & Hnd). unfold handed_out_once, allocated in *. simpl.
  rewrite length_app, length_replicate, fmap_app, zip_seq_snd.
  split; [lia|]. split.
  - apply Forall_app. split.
    + eapply Forall_impl; [exact Hall|]. simpl. intros a [H1 H2]. split; [lia|exact H2].
    + apply Forall_forall. intros a Ha. apply elem_of_seq in Ha. lia.
  - apply NoDup_app. split; [exact Hnd|]. split; [|apply NoDup_seq].
    intros a Ha Hb. apply elem_of_seq in Hb.
    rewrite Forall_forall in Hall. specialize (Hall a Ha). lia.
Qed.

(** The invariant only reads [arrays] through its length, [projects] and
    [calls]. *)
Lemma handed_same (w w' : World) :
  length (arrays w') = length (arrays w) -> projects w' = projects w ->
  calls w' = calls w ->
  handed_out_once w -> handed_out_once w'.
Proof.
  unfold handed_out_once, allocated. intros -> -> ->. tauto.
Qed.

Lemma handed_exec (o : Op) (w : World) :
  handed_out_once w -> handed_out_once (after (exec o) w).
Proof.
  intros Hw. destruct o as [fn|random obj|projectId newStatus]; simpl.
  - revert Hw. apply handed_same; reflexivity.
  - unfold after. rewrite addProject_allocated by apply Hw.
    apply handed_notified. revert Hw.
    apply handed_same; [simpl; apply length_alter|reflexivity|reflexivity].
  - rewrite after_moveProject.
    destruct (target projectId w) as [l|]; [|exact Hw].
    destruct (objects w !! l) as [p|]; [|exact Hw].
    destruct (bool_decide _); [|exact Hw].
    apply handed_notified. revert Hw. apply handed_same; reflexivity.
Qed.

Lemma handed_act (x : Action) (w : World) :
  handed_out_once w -> handed_out_once (after (act x) w).
Proof.
  intros Hw. destruct x as [o|a xs|l s]; simpl.
  - apply handed_exec, Hw.
  - unfold after. destruct (bool_decide _); [|exact Hw].
    revert Hw. apply handed_same; [simpl; apply length_insert|reflexivity|reflexivity].
  - revert Hw. apply handed_same; reflexivity.
Qed.

Lemma play_cons (x : Action) (xs : list Action) (w : World) :
  after (play (x :: xs)) w = after (play xs) (after (act x) w).
Proof.
  unfold after, play. simpl. unfold bind.
  destruct (act x w) as [[] w1]. reflexivity.
Qed.

Lemma handed_play (xs : list Action) :
  forall w, handed_out_once w -> handed_out_once (after (play xs) w).
Proof.
  induction xs as [|x xs IH]; intros w Hw; [exact Hw|].
  rewrite play_cons. apply IH, handed_act, Hw.
Qed.

Lemma play_listeners (xs : list Action) :
  forall (w : World) (fn : Listener),
    fn ∈ listeners w -> fn ∈ listeners (after (play xs) w).
Proof.
  induction xs as [|x xs IH]; intros w fn H; [exact H|].
  rewrite play_cons. apply IH.
  destruct x as [o|a ys|l s]; simpl.
  - apply exec_listeners, H.
  - unfold after. destruct (bool_decide _); exact H.
  - exact H.
Qed.

Lemma contents_array_assign (a b : aref) (xs : list loc) (w : World) :
  b <> a -> contents b (after (array_assign a xs) w) = contents b w.
Proof.
  intros Hne. unfold contents, after, array_assign. simpl.
  rewrite list_lookup_insert_ne by congruence. reflexivity.
Qed.

Lemma wf_act (x : Action) (w : World) :
  handed_out_once w -> wf w -> wf (after (act x) w).
Proof.
  intros Hh Hw. destruct x as [o|a xs|l s]; simpl.
  - apply wf_exec, Hw.
  - unfold after. destruct (bool_decide _) eqn:Ea; [|exact Hw].
    apply bool_decide_eq_true in Ea.
    destruct Hh as (_ & Hall & _). rewrite Forall_forall in Hall.
    destruct (Hall a Ea) as [_ Hne].
    destruct Hw as [Hal Hseq]. split.
    + unfold allocated in *. simpl. rewrite length_insert. exact Hal.
    + transitivity (store_seq w); [|exact Hseq].
      apply (contents_array_assign a (projects w) xs w). congruence.
  - destruct Hw as [Hal Hseq]. split; [exact Hal|].
    unfold after, assign_status. simpl. rewrite length_alter. exact Hseq.
Qed.

Lemma act_ids (x : Action) (w : World) :
  Project.id <$> objects (after (act x) w)
  = (Project.id <$> objects w) ++ (NumberToString <$> draws (store_ops [x])).
Proof.
  destruct x as [o|a xs|l s]; simpl.
  - apply exec_ids.
  - rewrite app_nil_r. unfold after. destruct (bool_decide _); reflexivity.
  - rewrite app_nil_r. apply fmap_id_alter.
Qed.

Lemma store_ops_cons (x : Action) (xs : list Action) :
  draws (store_ops (x :: xs)) = draws (store_ops [x]) ++ draws (store_ops xs).
Proof. destruct x as [[]| |]; reflexivity. Qed.

Lemma play_ids (xs : list Action) :
  forall w,
    Project.id <$> objects (after (play xs) w)
    = (Project.id <$> objects w) ++ (NumberToString <$> draws (store_ops xs)).
Proof.
  induction xs as [|x xs IH]; intros w.
  - simpl. rewrite app_nil_r. reflexivity.
  - rewrite play_cons, IH, act_ids, (store_ops_cons x xs), fmap_app, app_assoc.
    reflexivity.
Qed.

(** Whatever happened on the page, the store's array lists every object
    ever created, in the order of creation. *)
Lemma wf_play (xs : list Action) :
  forall w, handed_out_once w -> wf w -> wf (after (play xs) w).
Proof.
  induction xs as [|x xs IH]; intros w Hh Hw; [exact Hw|].
  rewrite play_cons. apply IH; [apply handed_act, Hh|apply wf_act; assumption].
Qed.

End Sharing.

(* ===================================================================== *)
(** ** How the form decides *)
(* ===================================================================== *)

Section Form.

Import Validation ProjectInput.

Lemma validate_title (s : jsstring) :
  validate (mkValidate (Str s) (Some true) None None None None)
  = negb (length (trim s) =? 0)%nat.
Proof. reflexivity. Qed.

Lemma validate_description (s : jsstring) :
  validate (mkValidate (Str s) (Some true) (Some (of_Z 5)) None None None)
  = (5 <=? length (trim s))%nat.
Proof.
  unfold validate. cbn [required value minLength maxLength min max truthy toString].
  change (of_Z 5) with (of_Z (Z.of_nat 5)).
  rewrite (num_ge_of_nat (length (trim s)) 5).
  destruct (length (trim s)) as [|n]; reflexivity.
Qed.

Lemma validate_people (n : number) :
  validate (mkValidate (Num n) (Some true) None None
              (Some (of_Z 1)) (Some (of_Z 5)))
  = num_ge n (of_Z 1) && num_le n (of_Z 5).
Proof.
  unfold validate. cbn [required value minLength maxLength min max truthy toString].
  rewrite NumberToString_not_blank. reflexivity.
Qed.

Lemma gatherUserInput_accepts (this : ProjectInput.t) (w : World) :
  gatherUserInput this w =
  if accepts this
  then (Some (titleInputEl this, descriptionInputEl this,
              StringToNumber (peopleInputEl this)), w)
  else (None, set_console (console w ++ [js "Input is wrong!"]) w).
Proof.
  unfold gatherUserInput, accepts.
  rewrite validate_title, validate_description, validate_people.
  destruct (negb (length (trim (titleInputEl this)) =? 0)%nat);
    destruct (5 <=? length (trim (descriptionInputEl this)))%nat;
    destruct (num_ge (StringToNumber (peopleInputEl this)) (of_Z 1));
    destruct (num_le (StringToNumber (peopleInputEl this)) (of_Z 5));
    reflexivity.
Qed.

Lemma submitHandler_unfold (random : number) (this : ProjectInput.t)
      (w : World) :
  submitHandler random this w =
  match gatherUserInput this w with
  | (Some (title, desc, people), w1) =>
      (clearInputs this,
       after (addProject random (UserInput.mk title desc people)) w1)
  | (None, w1) => (this, w1)
  end.
Proof.
  unfold submitHandler, bind.
  destruct (gatherUserInput this w) as [[[[title desc] people]|] w1];
    [|reflexivity].
  unfold after. destruct (addProject _ _ w1) as [[] w']. reflexivity.
Qed.

End Form.

(* ===================================================================== *)
(** ** The properties *)
(* ===================================================================== *)

(** *** The sequence and its ids *)

(** C1, as stated, fails: when [Math.random()] returns 0.5 twice, the two
    records of the store carry the same id. *)
Lemma unique_ids_counterexample :
  let w := after (play [Store_call (AddProject (Fin 5 (-1)) shed);
                        Store_call (AddProject (Fin 5 (-1)) shed)]) init in
  exists p q,
    store_records w !! 0 = Some p /\ store_records w !! 1 = Some q
    /\ Project.id p = Project.id q.
Proof. eexists _, _. repeat split. Qed.

(** C1, amended.  However the page got where it is since the store's
    creation, the sequence has as many records as [addProject] was called,
    and their ids are, in order, the decimal strings of what
    [Math.random()] returned in those calls; so the ids are pairwise
    distinct exactly when those strings are.  The store itself checks
    nothing. *)
Theorem addProject_count_and_ids (acts : list Action) :
  let w := after (play acts) init in
  let randoms := draws (store_ops acts) in
  length (store_seq w) = length randoms
  /\ length (store_records w) = length randoms
  /\ Project.id <$> store_records w = NumberToString <$> randoms
  /\ (NoDup (Project.id <$> store_records w)
      <-> NoDup (NumberToString <$> randoms)).
Proof.
  intros w randoms.
  pose proof (wf_play acts init handed_init wf_init) as Hwf. fold w in Hwf.
  assert (Hids : Project.id <$> store_records w = NumberToString <$> randoms).
  { rewrite (wf_records w Hwf). unfold w. rewrite play_ids. reflexivity. }
  assert (Hlen : length (store_records w) = length randoms).
  { rewrite <- (length_fmap Project.id), Hids, length_fmap. reflexivity. }
  split.
  { rewrite <- Hlen, (wf_records w Hwf). destruct Hwf as [_ ->].
    apply length_seq. }
  split; [exact Hlen|]. split; [exact Hids|].
  rewrite Hids. reflexivity.
Qed.

(** *** Snapshots are shallow copies *)

(** C2, as stated, fails.  Two listeners are registered and a project is
    added; the second listener received the array 2, whose only element is
    the object 0.  Setting the status of that element changes the record
    the store holds and the record in the array 1 that the first listener
    received: the arrays are copies, the records in them are shared. *)
Lemma snapshot_record_shared_counterexample :
  let w := after (run [AddListener 7; AddListener 8;
                       AddProject (Fin 5 (-1)) shed]) init in
  let w' := after (assign_status 0 Finished) w in
  calls w = [(7, 1); (8, 2)] /\ contents 2 w = [0]
  /\ Project.status <$> store_records w = [Active]
  /\ Project.status <$> store_records w' = [Finished]
  /\ Project.status <$> records 1 w = [Active]
  /\ Project.status <$> records 1 w' = [Finished].
Proof. repeat split. Qed.

(** C2, amended.  However the page got where it is (store calls, consumers
    changing arrays they were handed, consumers setting statuses), an array
    handed to a listener is an object of its own: changing that array in
    place, to any elements at all, leaves the objects, the store's sequence
    and records and the listeners as they were, and leaves every array
    handed out in any other call, with the records read through it, as it
    was.  Nothing is said here of changes to the records themselves. *)
Theorem snapshot_array_private (acts : list Action) (i : nat) (fn : Listener)
        (a : aref) (xs : list loc) :
  let w := after (play acts) init in
  calls w !! i = Some (fn, a) ->
  let w' := after (array_assign a xs) w in
  objects w' = objects w
  /\ listeners w' = listeners w
  /\ store_seq w' = store_seq w
  /\ store_records w' = store_records w
  /\ forall j fn' a',
       j <> i -> calls w !! j = Some (fn', a') ->
       a' <> a /\ contents a' w' = contents a' w
       /\ records a' w' = records a' w.
Proof.
  intros w Hi w'.
  pose proof (handed_play acts init handed_init) as (Hal & Hall & Hnd).
  fold w in Hal, Hall, Hnd.
  assert (Hia : (calls w).*2 !! i = Some a).
  { rewrite list_lookup_fmap, Hi. reflexivity. }
  assert (Hap : projects w <> a).
  { rewrite Forall_forall in Hall.
    destruct (Hall a) as [_ H]; [|congruence].
    apply list_elem_of_lookup. exists i. exact Hia. }
  assert (Hseq : store_seq w' = store_seq w).
  { apply (contents_array_assign a (projects w) xs w Hap). }
  split; [reflexivity|]. split; [reflexivity|]. split; [exact Hseq|].
  split.
  { unfold store_records, records.
    change (contents (projects w') w') with (store_seq w').
    rewrite Hseq. reflexivity. }
  intros j fn' a' Hne Hj.
  assert (Hja : (calls w).*2 !! j = Some a').
  { rewrite list_lookup_fmap, Hj. reflexivity. }
  assert (Hdiff : a' <> a).
  { intros ->. apply Hne. eapply NoDup_lookup; eassumption. }
  split; [exact Hdiff|].
  pose proof (contents_array_assign a a' xs w Hdiff) as Hc. fold w' in Hc.
  split; [exact Hc|].
  unfold records. rewrite Hc. reflexivity.
Qed.

Lemma snapshot_array_private_witness :
  let w := after (play [Store_call (AddListener 7); Store_call (AddListener 8);
                        Store_call (AddProject (Fin 5 (-1)) shed)]) init in
  let w' := after (array_assign 2 []) w in
  objects w' = objects w
  /\ listeners w' = listeners w
  /\ store_seq w' = store_seq w
  /\ store_records w' = store_records w
  /\ forall j fn' a',
       j <> 1 -> calls w !! j = Some (fn', a') ->
       a' <> 2 /\ contents a' w' = contents a' w
       /\ records a' w' = records a' w.
Proof.
  apply (snapshot_array_private
           [Store_call (AddListener 7); Store_call (AddListener 8);
            Store_call (AddProject (Fin 5 (-1)) shed)] 1 8 2 []).
  reflexivity.
Defined.

(** *** When moveProject acts *)


(** *** What addProject hands to the listeners *)

(** C4.  However the page got where it is, [addProject] with title [t],
    description [d] and people count [p] calls every registered listener
    once, in registration order; the array each receives lists every
    object created so far, in the order of creation, and the last of its
    records is the new one: [t], [d], [p], [Active]. *)
Theorem addProject_snapshot (acts : list Action) (random : number)
        (t d : jsstring) (p : number) :
  let w := after (play acts) init in
  let w' := after (addProject random (UserInput.mk t d p)) w in
  let newest := Project.mk (NumberToString random) t d p Active in
  (new_calls w w').*1 = listeners w
  /\ Forall (fun c =>
       contents c.2 w' = seq 0 (S (length (objects w)))
       /\ records c.2 w' = store_records w ++ [newest]
       /\ last (records c.2 w') = Some newest) (new_calls w w')
  /\ store_records w' = store_records w ++ [newest].
Proof.
  intros w w' newest.
  assert (Hwf : wf w).
  { apply wf_play; [apply handed_init|apply wf_init]. }
  set (obj := UserInput.mk t d p) in *.
  assert (E : w' = notified (pushed random obj w)).
  { subst w'. unfold after. rewrite addProject_allocated by apply Hwf.
    reflexivity. }
  assert (Hwf' : wf w').
  { rewrite E. apply wf_notified, wf_pushed, Hwf. }
  assert (Hobj : objects w' = objects w ++ [newest]).
  { rewrite E. reflexivity. }
  assert (Hrec : store_records w' = store_records w ++ [newest]).
  { rewrite (wf_records w' Hwf'), (wf_records w Hwf). exact Hobj. }
  split.
  { rewrite E, new_calls_notified by reflexivity. apply zip_seq_fst. }
  split; [|exact Hrec].
  apply Forall_forall. intros [fn a] Hc. simpl.
  assert (Hcont : contents a w' = store_seq w').
  { rewrite E in *. rewrite new_calls_notified in Hc by reflexivity.
    rewrite store_seq_notified by apply pushed_allocated, Hwf.
    apply contents_notified; [apply pushed_allocated, Hwf|].
    rewrite <- (zip_seq_snd (listeners (pushed random obj w))
                  (length (arrays (pushed random obj w)))).
    apply list_elem_of_fmap. exists (fn, a). split; [reflexivity|exact Hc]. }
  assert (Hrecs : records a w' = store_records w ++ [newest]).
  { unfold records. rewrite Hcont. exact Hrec. }
  split.
  { rewrite Hcont. destruct Hwf' as [_ ->]. rewrite Hobj, length_app.
    simpl. replace (length (objects w) + 1) with (S (length (objects w))) by lia.
    reflexivity. }
  split; [exact Hrecs|].
  rewrite Hrecs. apply last_snoc.
Qed.

(** *** One copy per listener *)

(** C5, as stated, fails: with two listeners registered, one [addProject]
    hands the first listener the array 1 and the second the array 2, two
    different array objects. *)
Lemma one_snapshot_counterexample :
  let w := after (run [AddListener 7; AddListener 8]) init in
  let w' := after (addProject (Fin 5 (-1)) shed) w in
  exists a b, new_calls w w' = [(7, a); (8, b)] /\ a <> b.
Proof. exists 1, 2. split; [reflexivity|discriminate]. Qed.

(** C5, amended.  However the page got where it is, an operation that
    changes the objects calls every registered listener once, in
    registration order, and hands each its own newly allocated array: the
    arrays are the next free references, in order, so they differ from each
    other and from every array that existed, and each holds the store's
    sequence as it is after the operation. *)
Theorem one_copy_per_listener (acts : list Action) (o : Op) :
  let w := after (play acts) init in
  let w' := after (exec o) w in
  objects w' <> objects w ->
  (new_calls w w').*1 = listeners w
  /\ (new_calls w w').*2 = seq (length (arrays w)) (length (listeners w))
  /\ NoDup (new_calls w w').*2
  /\ Forall (fun a => arrays w !! a = None
                      /\ contents a w' = store_seq w') (new_calls w w').*2.
Proof.
  intros w w' Hch.
  assert (Hal : allocated w).
  { apply (handed_play acts init handed_init). }
  assert (Hw' : exists w1, w' = notified w1 /\ calls w1 = calls w
                           /\ listeners w1 = listeners w
                           /\ length (arrays w1) = length (arrays w)
                           /\ allocated w1).
  { subst w'. destruct o as [fn|random obj|projectId newStatus]; simpl in *.
    - destruct Hch. reflexivity.
    - exists (pushed random obj w). unfold after.
      rewrite addProject_allocated by exact Hal.
      repeat split; [simpl; apply length_alter|apply pushed_allocated, Hal].
    - rewrite after_moveProject in *.
      destruct (target projectId w) as [l|]; [|destruct Hch; reflexivity].
      destruct (objects w !! l) as [p|]; [|destruct Hch; reflexivity].
      destruct (bool_decide _); [|destruct Hch; reflexivity].
      exists (moved l newStatus w). repeat split. exact Hal. }
  destruct Hw' as (w1 & -> & Hc & Hl & Hlen & Hal1).
  rewrite new_calls_notified by exact Hc. rewrite Hl, Hlen.
  rewrite zip_seq_fst, zip_seq_snd.
  split; [reflexivity|]. split; [reflexivity|]. split; [apply NoDup_seq|].
  apply Forall_forall. intros a Ha. split.
  - apply lookup_ge_None. apply elem_of_seq in Ha. lia.
  - rewrite store_seq_notified by exact Hal1.
    apply contents_notified; [exact Hal1|]. rewrite Hl, Hlen. exact Ha.
Qed.

Lemma one_copy_per_listener_witness :
  let w := after (play [Store_call (AddListener 7);
                        Store_call (AddListener 8)]) init in
  let w' := after (exec (AddProject (Fin 5 (-1)) shed)) w in
  (new_calls w w').*1 = listeners w
  /\ (new_calls w w').*2 = seq (length (arrays w)) (length (listeners w))
  /\ NoDup (new_calls w w').*2
  /\ Forall (fun a => arrays w !! a = None
                      /\ contents a w' = store_seq w') (new_calls w w').*2.
Proof.
  apply (one_copy_per_listener
           [Store_call (AddListener 7); Store_call (AddListener 8)]
           (AddProject (Fin 5 (-1)) shed)).
  simpl. discriminate.
Defined.

(** *** What the form accepts *)

(** C6, as stated, fails, both ways.  With the people field "2.5" the
    count is no integer, so the rule of the specification rejects it, yet
    the handler calls [addProject] and the store gains a record for 2.5
    people.  With the title "   " the rule of the specification is met (the
    title is not empty), yet the handler does not call [addProject]. *)
Lemma form_rule_counterexample :
  let half := ProjectInput.mk (js "Shed") (js "Wooden") (js "2.5") in
  let blank := ProjectInput.mk (js "   ") (js "Wooden") (js "3") in
  (ProjectInput.spec_valid half = false
   /\ store_records (ProjectInput.submitHandler (Fin 5 (-1)) half init).2
      = [Project.mk (js "0.5") (js "Shed") (js "Wooden") (Fin 25 (-1)) Active])
  /\ (ProjectInput.spec_valid blank = true
      /\ store_records (ProjectInput.submitHandler (Fin 5 (-1)) blank init).2
         = []).
Proof. vm_compute. repeat split. Qed.

(** C6, amended.  The handler calls [addProject], with the three gathered
    values, and then clears the fields, exactly when the title is not blank
    (not empty once trimmed), the description has five or more code units
    once trimmed, and the people field converts to a number that is at
    least 1 and at most 5, integer or not.  Otherwise it calls nothing,
    leaves the fields as typed and logs one line.  So the store gains an
    object exactly in the first case. *)
Theorem submitHandler_accepts (random : number) (this : ProjectInput.t)
        (w : World) :
  ProjectInput.submitHandler random this w =
  (if ProjectInput.accepts this
   then (ProjectInput.clearInputs this,
         after (addProject random
                  (UserInput.mk (ProjectInput.titleInputEl this)
                     (ProjectInput.descriptionInputEl this)
                     (StringToNumber (ProjectInput.peopleInputEl this)))) w)
   else (this, set_console (console w ++ [js "Input is wrong!"]) w))
  /\ (objects (ProjectInput.submitHandler random this w).2 <> objects w
      <-> ProjectInput.accepts this = true).
Proof.
  rewrite submitHandler_unfold, gatherUserInput_accepts.
  destruct (ProjectInput.accepts this); (split; [reflexivity|]).
  - split; [reflexivity|]. intros _. simpl.
    match goal with
    | |- objects (after (addProject ?r ?o) w) <> _ =>
        destruct (addProject_any r o w) as (-> & _)
    end.
    intros H. apply (f_equal length) in H. rewrite length_app in H.
    simpl in H. lia.
  - simpl. split; [intros H; destruct H; reflexivity|discriminate].
Qed.

(** *** moveProject twice *)

(** C7, as stated, fails: the record with id "0.5" is in the store and a
    listener is registered, yet two calls of [moveProject "0.5" Finished]
    make no call at all, because the record is already [Finished]. *)
Lemma moveProject_twice_counterexample :
  let w := finished_world in
  let w1 := after (moveProject (js "0.5") Finished) w in
  let w2 := after (moveProject (js "0.5") Finished) w1 in
  (exists p, p ∈ store_records w /\ Project.id p = js "0.5")
  /\ listeners w = [7]
  /\ new_calls w w1 = [] /\ new_calls w1 w2 = [].
Proof.
  repeat split.
  eexists. split; [apply list_elem_of_here|reflexivity].
Qed.

(** C7, amended.  When the record meant by [projectId] is [Active], the
    first [moveProject projectId Finished] calls every registered listener
    once, and the second leaves the world as the first left it, calling
    nobody: over the two calls each listener is called exactly once. *)
Theorem moveProject_twice_once (projectId : jsstring) (w : World)
        (p : Project.t) :
  first_with_id projectId w = Some p ->
  Project.status p = Active ->
  let w1 := after (moveProject projectId Finished) w in
  let w2 := after (moveProject projectId Finished) w1 in
  (new_calls w w1).*1 = listeners w
  /\ w2 = w1
  /\ new_calls w1 w2 = []
  /\ (new_calls w w2).*1 = listeners w.
Proof.
  intros Hp Hst w1 w2.
  destruct (first_with_id_Some _ _ _ Hp) as (l & Ht & Hl).
  assert (E1 : w1 = notified (moved l Finished w)).
  { subst w1. rewrite after_moveProject, Ht, Hl.
    rewrite bool_decide_eq_true_2; [reflexivity|]. rewrite Hst. discriminate. }
  assert (E2 : w2 = w1).
  { subst w2. rewrite after_moveProject. rewrite E1.
    destruct (target_moved projectId Finished w l p Ht Hl) as [-> ->].
    rewrite bool_decide_eq_false_2; [reflexivity|].
    intros H. apply H. reflexivity. }
  assert (C1 : (new_calls w w1).*1 = listeners w).
  { rewrite E1, new_calls_notified by reflexivity. simpl. apply zip_seq_fst. }
  split; [exact C1|]. split; [exact E2|].
  rewrite E2. split; [|exact C1].
  unfold new_calls. apply drop_all.
Qed.

Lemma moveProject_twice_once_witness :
  let w := after (run [AddListener 7; AddProject (Fin 5 (-1)) shed]) init in
  let w1 := after (moveProject (js "0.5") Finished) w in
  let w2 := after (moveProject (js "0.5") Finished) w1 in
  (new_calls w w1).*1 = listeners w
  /\ w2 = w1
  /\ new_calls w1 w2 = []
  /\ (new_calls w w2).*1 = listeners w.
Proof.
  apply (moveProject_twice_once (js "0.5")
           (after (run [AddListener 7; AddProject (Fin 5 (-1)) shed]) init)
           (Project.mk (js "0.5") (js "Build shed")
              (js "Wooden shed construction") (of_Z 3) Active)).
  - reflexivity.
  - reflexivity.
Defined.

(** *** What moveProject leaves alone *)

(** C8.  [moveProject] keeps the store's sequence (same references, same
    order, same length), the set of objects and the listeners; of every
    record it keeps [id], [title], [description] and [people]; and a record
    whose [status] changed carries the id that was asked for and belongs to
    the store's sequence. *)
Theorem moveProject_frame (projectId : jsstring) (newStatus : ProjectStatus)
        (w : World) :
  let w' := after (moveProject projectId newStatus) w in
  store_seq w' = store_seq w
  /\ length (store_records w') = length (store_records w)
  /\ length (objects w') = length (objects w)
  /\ listeners w' = listeners w
  /\ forall l p',
       objects w' !! l = Some p' ->
       exists p,
         objects w !! l = Some p
         /\ Project.id p' = Project.id p
         /\ Project.title p' = Project.title p
         /\ Project.description p' = Project.description p
         /\ Project.people p' = Project.people p
         /\ (Project.status p' <> Project.status p ->
             Project.id p = projectId /\ l ∈ store_seq w).
Proof.
  intros w'. subst w'. rewrite after_moveProject.
  assert (Hsame : store_seq w = store_seq w
    /\ length (store_records w) = length (store_records w)
    /\ length (objects w) = length (objects w)
    /\ listeners w = listeners w
    /\ forall l p', objects w !! l = Some p' ->
       exists p, objects w !! l = Some p
         /\ Project.id p' = Project.id p
         /\ Project.title p' = Project.title p
         /\ Project.description p' = Project.description p
         /\ Project.people p' = Project.people p
         /\ (Project.status p' <> Project.status p ->
             Project.id p = projectId /\ l ∈ store_seq w)).
  { repeat split; try reflexivity. intros l p' H. exists p'.
    repeat split; try assumption; congruence. }
  destruct (target projectId w) as [l0|] eqn:Et; [|exact Hsame].
  destruct (objects w !! l0) as [p0|] eqn:Ep; [|exact Hsame].
  destruct (bool_decide _); [|exact Hsame]. clear Hsame.
  apply target_Some in Et as (Hal & Hin & q & Hq & Hid).
  assert (Hseq : store_seq (notified (moved l0 newStatus w)) = store_seq w).
  { rewrite store_seq_notified by exact Hal. reflexivity. }
  split; [exact Hseq|].
  split.
  { unfold store_records, records.
    change (contents (projects (notified (moved l0 newStatus w)))
              (notified (moved l0 newStatus w)))
      with (store_seq (notified (moved l0 newStatus w))).
    rewrite Hseq. simpl. apply length_omap_alter. }
  split; [simpl; apply length_alter|].
  split; [reflexivity|].
  intros l p'. simpl. rewrite list_lookup_alter.
  case_decide as Heq.
  - subst l. rewrite Ep. simpl. intros [= <-]. exists p0.
    repeat split; try reflexivity; try assumption; congruence.
  - intros H. exists p'. repeat split; try assumption; congruence.
Qed.

(** *** addListener *)

(** C9.  [addListener fn] calls nobody and touches neither the objects nor
    any array: it appends [fn] to the listeners and nothing else.  After
    it, whatever happens on the page, every operation of the store that
    changes the objects calls [fn]. *)
Theorem addListener_registers (fn : Listener) (w : World) :
  let w1 := after (addListener fn) w in
  calls w1 = calls w
  /\ objects w1 = objects w
  /\ arrays w1 = arrays w
  /\ projects w1 = projects w
  /\ console w1 = console w
  /\ listeners w1 = listeners w ++ [fn]
  /\ forall (acts : list Action) (o : Op),
       let w2 := after (play acts) w1 in
       let w3 := after (exec o) w2 in
       objects w3 <> objects w2 -> fn ∈ (new_calls w2 w3).*1.
Proof.
  intros w1. repeat split. intros acts o w2 w3 Hch.
  subst w3. rewrite exec_calls by exact Hch.
  subst w2. apply play_listeners. subst w1. unfold after, addListener. simpl.
  apply elem_of_app. right. apply list_elem_of_here.
Qed.

(** *** Blank strings are rejected *)

(** C10.  A string made of white space only (the empty string included)
    fails [validate] whenever [required] is true, whatever the other
    members are, because the test is on the trimmed string; so the form
    gathers nothing, and the handler adds nothing, when the title or the
    description is such a string. *)
Theorem validate_required_blank (s : jsstring)
        (minLength maxLength min max : option number) :
  forallb isStrWhiteSpaceChar s = true ->
  Validation.validate
    (Validation.mkValidate (Validation.Str s) (Some true)
       minLength maxLength min max) = false
  /\ forall (random : number) (this : ProjectInput.t) (w : World),
       ProjectInput.titleInputEl this = s
       \/ ProjectInput.descriptionInputEl this = s ->
       (ProjectInput.gatherUserInput this w).1 = None
       /\ objects (ProjectInput.submitHandler random this w).2 = objects w
       /\ calls (ProjectInput.submitHandler random this w).2 = calls w.
Proof.
  intros Hs. apply trim_nil_iff in Hs. split.
  - unfold Validation.validate.
    cbn [Validation.required Validation.value Validation.minLength
         Validation.maxLength Validation.min Validation.max
         Validation.truthy Validation.toString].
    rewrite Hs. simpl.
    destruct minLength, maxLength, min, max; reflexivity.
  - intros random this w Hor.
    assert (Hacc : ProjectInput.accepts this = false).
    { unfold ProjectInput.accepts.
      destruct Hor as [-> | ->]; rewrite Hs; simpl; [reflexivity|].
      rewrite andb_false_r. reflexivity. }
    rewrite submitHandler_unfold, gatherUserInput_accepts, Hacc.
    repeat split.
Qed.

Lemma validate_required_blank_witness :
  Validation.validate
    (Validation.mkValidate (Validation.Str (js "  ")) (Some true)
       (Some (of_Z 1)) None None None) = false
  /\ forall (random : number) (this : ProjectInput.t) (w : World),
       ProjectInput.titleInputEl this = js "  "
       \/ ProjectInput.descriptionInputEl this = js "  " ->
       (ProjectInput.gatherUserInput this w).1 = None
       /\ objects (ProjectInput.submitHandler random this w).2 = objects w
       /\ calls (ProjectInput.submitHandler random this w).2 = calls w.
Proof.
  apply (validate_required_blank (js "  ") (Some (of_Z 1)) None None None).
  reflexivity.
Defined.


(* ===================================================================== *)
(** ** More about validate *)
(* ===================================================================== *)

Section ValidateFacts.

Import Validation Checks.

(** [validate] is the conjunction of its five tests. *)
Lemma validate_checks (input : Validate) :
  validate input
  = check_required input && check_minLength input && check_maxLength input
    && check_min input && check_max input.
Proof.
  unfold validate, check_required, check_minLength, check_maxLength,
    check_min, check_max.
  destruct (truthy (required input)), (minLength input), (maxLength input),
    (min input), (max input), (value input);
    rewrite ?andb_true_r, ?andb_true_l; reflexivity.
Qed.

Lemma trimStart_app_blank (ws s : jsstring) :
  forallb isStrWhiteSpaceChar ws = true -> trimStart (ws ++ s) = trimStart s.
Proof.
  induction ws as [|c ws IH]; simpl; [reflexivity|].
  intros H. apply andb_true_iff in H as [Hc Hws]. rewrite Hc. apply IH, Hws.
Qed.

Lemma trimStart_app_visible (s t : jsstring) :
  trimStart s <> [] -> trimStart (s ++ t) = trimStart s ++ t.
Proof.
  induction s as [|c s IH]; simpl; [congruence|].
  destruct (isStrWhiteSpaceChar c); [exact IH|reflexivity].
Qed.

Lemma trimEnd_app_blank (s ws : jsstring) :
  forallb isStrWhiteSpaceChar ws = true -> trimEnd (s ++ ws) = trimEnd s.
Proof.
  intros H. unfold trimEnd. rewrite rev_app_distr.
  rewrite trimStart_app_blank; [reflexivity|].
  rewrite forallb_rev. exact H.
Qed.

(** White space around a string does not change what [trim] returns. *)
Lemma trim_padding (ws1 s ws2 : jsstring) :
  forallb isStrWhiteSpaceChar ws1 = true ->
  forallb isStrWhiteSpaceChar ws2 = true ->
  trim (ws1 ++ s ++ ws2) = trim s.
Proof.
  intros H1 H2. unfold trim. rewrite trimStart_app_blank by exact H1.
  destruct (trimStart s) as [|c r] eqn:E.
  - assert (Hall : forallb isStrWhiteSpaceChar (s ++ ws2) = true).
    { rewrite forallb_app. apply trimStart_nil_iff in E. rewrite E, H2.
      reflexivity. }
    apply trimStart_nil_iff in Hall. rewrite Hall. reflexivity.
  - rewrite trimStart_app_visible by (rewrite E; discriminate).
    rewrite E. apply trimEnd_app_blank, H2.
Qed.

Lemma num_le_of_nat (n k : nat) :
  num_le (of_nat n) (of_nat k) = (n <=? k)%nat.
Proof.
  unfold num_le, of_nat. simpl. unfold compare_fin. simpl.
  rewrite !Z.mul_1_r.
  destruct (Z.compare_spec (Z.of_nat n) (Z.of_nat k)) as [H|H|H];
    symmetry; [apply Nat.leb_le|apply Nat.leb_le|apply Nat.leb_gt]; lia.
Qed.

Lemma num_ge_of_nat' (n k : nat) :
  num_ge (of_nat n) (of_nat k) = (k <=? n)%nat.
Proof. apply (num_ge_of_nat n k). Qed.

End ValidateFacts.

(** X1.  Bounds of the wrong kind are ignored: on a string value [min] and
    [max] have no effect, and on a number value [minLength] and
    [maxLength] have none. *)
Theorem validate_ignores_foreign_bounds (s : jsstring) (n : number)
        (required : option bool) (minLength maxLength min max : option number) :
  Validation.validate
    (Validation.mkValidate (Validation.Str s) required minLength maxLength
       min max)
  = Validation.validate
      (Validation.mkValidate (Validation.Str s) required minLength maxLength
         None None)
  /\ Validation.validate
       (Validation.mkValidate (Validation.Num n) required minLength maxLength
          min max)
     = Validation.validate
         (Validation.mkValidate (Validation.Num n) required None None
            min max).
Proof.
  split; rewrite !validate_checks;
    unfold Checks.check_required, Checks.check_minLength,
      Checks.check_maxLength, Checks.check_min, Checks.check_max; simpl;
    destruct minLength, maxLength, min, max;
    rewrite ?andb_true_r; reflexivity.
Qed.

(** X2.  On a number, [required] decides nothing: the verdict is that of
    the [min] and [max] tests alone, because the decimal string of a number
    is never blank.  So [NaN] passes when neither bound is given, even if
    required, and fails as soon as one is. *)
Theorem validate_number (n : number) (required : option bool)
        (minLength maxLength min max : option number) (k : number) :
  Validation.validate
    (Validation.mkValidate (Validation.Num n) required minLength maxLength
       min max)
  = (match min with Some lo => num_ge n lo | None => true end
     && match max with Some hi => num_le n hi | None => true end)
  /\ Validation.validate
       (Validation.mkValidate (Validation.Num NaN) required minLength
          maxLength None None) = true
  /\ Validation.validate
       (Validation.mkValidate (Validation.Num NaN) required minLength
          maxLength (Some k) max) = false
  /\ Validation.validate
       (Validation.mkValidate (Validation.Num NaN) required minLength
          maxLength min (Some k)) = false.
Proof.
  assert (Hgen : forall x mn mx,
    Validation.validate
      (Validation.mkValidate (Validation.Num x) required minLength maxLength
         mn mx)
    = (match mn with Some lo => num_ge x lo | None => true end
       && match mx with Some hi => num_le x hi | None => true end)).
  { intros x mn mx. rewrite validate_checks.
    unfold Checks.check_required, Checks.check_minLength,
      Checks.check_maxLength, Checks.check_min, Checks.check_max.
    cbn [Validation.required Validation.value Validation.minLength
         Validation.maxLength Validation.min Validation.max
         Validation.toString].
    rewrite NumberToString_not_blank.
    destruct (Validation.truthy required), minLength, maxLength, mn, mx;
      reflexivity. }
  split; [apply Hgen|]. rewrite !Hgen.
  split; [reflexivity|]. split; [reflexivity|].
  destruct min; reflexivity.
Qed.

(** X3.  White space before and after a string value never changes the
    verdict: every string test reads the trimmed string. *)
Theorem validate_padding (ws1 s ws2 : jsstring) (required : option bool)
        (minLength maxLength min max : option number) :
  forallb isStrWhiteSpaceChar ws1 = true ->
  forallb isStrWhiteSpaceChar ws2 = true ->
  Validation.validate
    (Validation.mkValidate (Validation.Str (ws1 ++ s ++ ws2)) required
       minLength maxLength min max)
  = Validation.validate
      (Validation.mkValidate (Validation.Str s) required minLength maxLength
         min max).
Proof.
  intros H1 H2. unfold Validation.validate.
  cbn [Validation.required Validation.value Validation.minLength
       Validation.maxLength Validation.min Validation.max
       Validation.toString].
  rewrite (trim_padding ws1 s ws2 H1 H2). reflexivity.
Qed.

Lemma validate_padding_witness :
  Validation.validate
    (Validation.mkValidate (Validation.Str (js "  " ++ js "shed" ++ js " "))
       (Some true) (Some (of_Z 4)) None None None)
  = Validation.validate
      (Validation.mkValidate (Validation.Str (js "shed")) (Some true)
         (Some (of_Z 4)) None None None).
Proof.
  apply (validate_padding (js "  ") (js "shed") (js " ") (Some true)
           (Some (of_Z 4)) None None None); reflexivity.
Defined.

(** X4.  Rules only restrict: if an input passes, so does every input with
    the same value that asks no more (some rules dropped, the others
    kept). *)
Theorem validate_relaxes (a b : Validation.Validate) :
  Checks.relaxes a b ->
  Validation.validate b = true -> Validation.validate a = true.
Proof.
  intros (Hv & Hr & Hmin & Hmax & Hlo & Hhi). rewrite !validate_checks.
  rewrite !andb_true_iff. intros [[[[B1 B2] B3] B4] B5].
  unfold Checks.check_required, Checks.check_minLength,
    Checks.check_maxLength, Checks.check_min, Checks.check_max in *.
  rewrite Hv. repeat split.
  - destruct (Validation.truthy (Validation.required a)); [|reflexivity].
    rewrite Hr in B1 by reflexivity. exact B1.
  - destruct Hmin as [-> | ->]; [reflexivity|exact B2].
  - destruct Hmax as [-> | ->]; [reflexivity|exact B3].
  - destruct Hlo as [-> | ->]; [reflexivity|exact B4].
  - destruct Hhi as [-> | ->]; [reflexivity|exact B5].
Qed.

Lemma validate_relaxes_witness :
  Validation.validate
    (Validation.mkValidate (Validation.Str (js "Wooden")) None
       (Some (of_Z 5)) None None None) = true.
Proof.
  apply (validate_relaxes
           (Validation.mkValidate (Validation.Str (js "Wooden")) None
              (Some (of_Z 5)) None None None)
           (Validation.mkValidate (Validation.Str (js "Wooden")) (Some true)
              (Some (of_Z 5)) (Some (of_Z 9)) None None)).
  - repeat split; try (left; reflexivity); try (right; reflexivity).
  - reflexivity.
Defined.

(** X5.  With whole-number length bounds the string tests say: the trimmed
    length is at least [minLength] and at most [maxLength] (and not zero
    when required).  So no string passes when [minLength] exceeds
    [maxLength]. *)
Theorem validate_length_bounds (s : jsstring) (required : option bool)
        (lo hi : nat) (min max : option number) :
  Validation.validate
    (Validation.mkValidate (Validation.Str s) required
       (Some (of_nat lo)) (Some (of_nat hi)) min max)
  = ((if Validation.truthy required
      then negb (length (trim s) =? 0)%nat else true)
     && (lo <=? length (trim s))%nat && (length (trim s) <=? hi)%nat)
  /\ ((hi < lo)%nat ->
      Validation.validate
        (Validation.mkValidate (Validation.Str s) required
           (Some (of_nat lo)) (Some (of_nat hi)) min max) = false).
Proof.
  assert (E : Validation.validate
    (Validation.mkValidate (Validation.Str s) required
       (Some (of_nat lo)) (Some (of_nat hi)) min max)
  = ((if Validation.truthy required
      then negb (length (trim s) =? 0)%nat else true)
     && (lo <=? length (trim s))%nat && (length (trim s) <=? hi)%nat)).
  { rewrite validate_checks.
    unfold Checks.check_required, Checks.check_minLength,
      Checks.check_maxLength, Checks.check_min, Checks.check_max.
    cbn [Validation.required Validation.value Validation.minLength
         Validation.maxLength Validation.min Validation.max
         Validation.toString].
    rewrite num_ge_of_nat', num_le_of_nat.
    destruct min, max; rewrite ?andb_true_r; reflexivity. }
  split; [exact E|].
  intros Hlt. rewrite E.
  destruct (lo <=? length (trim s))%nat eqn:E1;
    [|rewrite andb_false_r; reflexivity].
  apply Nat.leb_le in E1.
  replace (length (trim s) <=? hi)%nat with false;
    [apply andb_false_r|].
  symmetry. apply Nat.leb_gt. lia.
Qed.

(* ===================================================================== *)
(** ** More about the form *)
(* ===================================================================== *)

Section FormFacts.

Import ProjectInput.

Lemma accepts_cleared (this : ProjectInput.t) :
  accepts (clearInputs this) = false.
Proof. reflexivity. Qed.

Lemma StringToNumber_blank (s : jsstring) :
  forallb isStrWhiteSpaceChar s = true -> StringToNumber s = Fin 0 0.
Proof.
  intros H. apply trim_nil_iff in H. unfold StringToNumber. rewrite H.
  reflexivity.
Qed.

(** In a well-formed world [addProject] appends its record to the store's
    records. *)
Lemma store_records_addProject (random : number) (obj : UserInput.t)
      (w : World) :
  wf w ->
  store_records (after (addProject random obj) w)
  = store_records w ++ [fresh_project random obj].
Proof.
  intros Hwf.
  assert (Hwf' : wf (after (addProject random obj) w)).
  { apply (wf_exec (AddProject random obj) w Hwf). }
  rewrite (wf_records _ Hwf'), (wf_records w Hwf).
  apply addProject_any.
Qed.

End FormFacts.

(** X6.  Submitting twice in a row never adds twice: whatever the first
    submission did, the second, on the form as the first left it, adds no
    object, calls no listener and leaves the fields alone.  After a
    success the fields are empty, and an empty title is rejected. *)
Theorem submit_again_adds_nothing (random1 random2 : number)
        (this : ProjectInput.t) (w : World) :
  let first := ProjectInput.submitHandler random1 this w in
  let second := ProjectInput.submitHandler random2 first.1 first.2 in
  objects second.2 = objects first.2
  /\ calls second.2 = calls first.2
  /\ arrays second.2 = arrays first.2
  /\ second.1 = first.1.
Proof.
  intros first second. subst second first.
  rewrite (submitHandler_unfold random1), gatherUserInput_accepts.
  destruct (ProjectInput.accepts this) eqn:E; cbn [fst snd].
  - rewrite submitHandler_unfold, gatherUserInput_accepts, accepts_cleared.
    repeat split.
  - rewrite submitHandler_unfold, gatherUserInput_accepts, E.
    repeat split.
Qed.

(** X7.  An empty or blank people field is rejected, though not by the
    [required] test: unary plus turns it into 0, which is below the
    minimum.  The handler then adds nothing, keeps the fields and logs the
    one line. *)
Theorem blank_people_rejected (random : number) (this : ProjectInput.t)
        (w : World) :
  forallb isStrWhiteSpaceChar (ProjectInput.peopleInputEl this) = true ->
  StringToNumber (ProjectInput.peopleInputEl this) = Fin 0 0
  /\ Validation.validate
       (Validation.mkValidate
          (Validation.Num (StringToNumber (ProjectInput.peopleInputEl this)))
          (Some true) None None None None) = true
  /\ ProjectInput.submitHandler random this w
     = (this, set_console (console w ++ [js "Input is wrong!"]) w).
Proof.
  intros H. pose proof (StringToNumber_blank _ H) as E.
  split; [exact E|]. split.
  - rewrite E. reflexivity.
  - rewrite submitHandler_unfold, gatherUserInput_accepts.
    unfold ProjectInput.accepts. rewrite E.
    replace (num_ge (Fin 0 0) (of_Z 1)) with false by reflexivity.
    rewrite andb_false_r. reflexivity.
Qed.

Lemma blank_people_rejected_witness :
  StringToNumber (js " ") = Fin 0 0
  /\ Validation.validate
       (Validation.mkValidate (Validation.Num (StringToNumber (js " ")))
          (Some true) None None None None) = true
  /\ ProjectInput.submitHandler (Fin 5 (-1))
       (ProjectInput.mk (js "Shed") (js "Wooden") (js " ")) init
     = (ProjectInput.mk (js "Shed") (js "Wooden") (js " "),
        set_console (console init ++ [js "Input is wrong!"]) init).
Proof.
  apply (blank_people_rejected (Fin 5 (-1))
           (ProjectInput.mk (js "Shed") (js "Wooden") (js " ")) init).
  reflexivity.
Defined.

(* ===================================================================== *)
(** ** More about moveProject *)
(* ===================================================================== *)

Section MoveFacts.

(** [find] meets the same object for every id after any move: a move
    leaves ids and the store's array alone. *)
Lemma target_moved_any (projectId : jsstring) (l : loc) (s : ProjectStatus)
      (w : World) :
  allocated w ->
  target projectId (notified (moved l s w)) = target projectId w.
Proof.
  intros Hal. unfold target, find. simpl.
  rewrite lookup_app_l by exact Hal.
  apply find_ext_in. intros x. rewrite list_lookup_alter.
  case_decide as Hx; [|reflexivity].
  subst x. destruct (objects w !! l); reflexivity.
Qed.

Lemma with_status_same (p : Project.t) :
  Project.with_status (Project.status p) p = p.
Proof. destruct p. reflexivity. Qed.

(** The first element of a list that passes a test: what [List.find]
    returns passes, and nothing before it does. *)
Lemma find_first {A : Type} (P : A -> bool) (xs : list A) (x : A) :
  List.find P xs = Some x ->
  exists k, xs !! k = Some x /\ P x = true
            /\ forall i y, i < k -> xs !! i = Some y -> P y = false.
Proof.
  induction xs as [|z xs IH]; simpl; [discriminate|].
  destruct (P z) eqn:Ez.
  - intros [= <-]. exists 0. split; [reflexivity|]. split; [exact Ez|].
    intros i y Hi. lia.
  - intros H. destruct (IH H) as (k & Hk & Hx & Hbefore).
    exists (S k). split; [exact Hk|]. split; [exact Hx|].
    intros [|i] y Hi Hy.
    + simpl in Hy. injection Hy as <-. exact Ez.
    + apply (Hbefore i y); [lia|exact Hy].
Qed.

(** The two effective moves, in either order, leave the same world. *)
Lemma moved_twice_commute (l1 l2 : loc) (s1 s2 : ProjectStatus) (w : World) :
  allocated w -> l1 <> l2 ->
  notified (moved l2 s2 (notified (moved l1 s1 w)))
  = notified (moved l1 s1 (notified (moved l2 s2 w))).
Proof.
  intros Hal Hne. unfold notified, moved, store_seq, contents. simpl.
  rewrite !lookup_app_l by exact Hal.
  f_equal. apply list_alter_alter_ne. congruence.
Qed.

Lemma after_moveProject_effective (projectId : jsstring)
      (newStatus : ProjectStatus) (w : World) :
  after (moveProject projectId newStatus) w
  = match effective projectId newStatus w with
    | Some l => notified (moved l newStatus w)
    | None => w
    end.
Proof.
  rewrite after_moveProject. unfold effective.
  destruct (target projectId w) as [l|]; [|reflexivity].
  destruct (objects w !! l) as [p|]; [|reflexivity].
  destruct (bool_decide _); reflexivity.
Qed.

Lemma effective_Some (projectId : jsstring) (newStatus : ProjectStatus)
      (w : World) (l : loc) :
  effective projectId newStatus w = Some l ->
  allocated w /\ target projectId w = Some l
  /\ exists p, objects w !! l = Some p /\ Project.id p = projectId
               /\ Project.status p <> newStatus.
Proof.
  unfold effective. destruct (target projectId w) as [l0|] eqn:Et; [|discriminate].
  destruct (objects w !! l0) as [p|] eqn:Ep; [|discriminate].
  destruct (bool_decide (Project.status p <> newStatus)) eqn:Eb; [|discriminate].
  intros [= <-].
  pose proof (target_Some _ _ _ Et) as (Hal & _ & q & Hq & Hid).
  split; [exact Hal|]. split; [reflexivity|].
  exists p. split; [exact Ep|]. split; [congruence|].
  apply bool_decide_eq_true in Eb. exact Eb.
Qed.

(** A move of one id does not change what a move of another id would
    do. *)
Lemma effective_after_other (id1 id2 : jsstring) (s1 s2 : ProjectStatus)
      (w : World) (l1 : loc) :
  id1 <> id2 -> effective id1 s1 w = Some l1 ->
  effective id2 s2 (notified (moved l1 s1 w)) = effective id2 s2 w.
Proof.
  intros Hne He. destruct (effective_Some _ _ _ _ He) as (Hal & _ & p1 & Hp1 & Hid1 & _).
  unfold effective. rewrite target_moved_any by exact Hal.
  destruct (target id2 w) as [l2|] eqn:Et2; [|reflexivity].
  pose proof (target_Some _ _ _ Et2) as (_ & _ & p2 & Hp2 & Hid2).
  simpl. rewrite list_lookup_alter_ne; [reflexivity|].
  intros ->. apply Hne. congruence.
Qed.

End MoveFacts.

(** X9.  [moveProject] is idempotent: in any world, for any id and status,
    a second identical call leaves the world exactly as the first left it
    and so calls no listener. *)
Theorem moveProject_idempotent (projectId : jsstring)
        (newStatus : ProjectStatus) (w : World) :
  after (moveProject projectId newStatus)
    (after (moveProject projectId newStatus) w)
  = after (moveProject projectId newStatus) w.
Proof.
  rewrite (after_moveProject projectId newStatus w).
  destruct (target projectId w) as [l|] eqn:Et.
  2: { rewrite after_moveProject, Et. reflexivity. }
  destruct (objects w !! l) as [p|] eqn:Ep.
  2: { rewrite after_moveProject, Et, Ep. reflexivity. }
  destruct (bool_decide (Project.status p <> newStatus)) eqn:Eb.
  2: { rewrite after_moveProject, Et, Ep, Eb. reflexivity. }
  pose proof (target_Some _ _ _ Et) as (Hal & _).
  rewrite after_moveProject, target_moved_any, Et by exact Hal.
  simpl. rewrite list_lookup_alter_eq, Ep. simpl.
  rewrite bool_decide_eq_false_2; [reflexivity|].
  intros H. apply H. reflexivity.
Qed.

(** X10.  Whenever some record carries the id, after [moveProject] the
    record meant by the id (the first with it) has the new status and is
    otherwise the record it was, whether the call had to change it or
    not. *)
Theorem moveProject_sets_status (projectId : jsstring)
        (newStatus : ProjectStatus) (w : World) (p : Project.t) :
  first_with_id projectId w = Some p ->
  first_with_id projectId (after (moveProject projectId newStatus) w)
  = Some (Project.with_status newStatus p).
Proof.
  intros Hp. destruct (first_with_id_Some _ _ _ Hp) as (l & Ht & Hl).
  rewrite after_moveProject, Ht, Hl.
  destruct (bool_decide (Project.status p <> newStatus)) eqn:Eb.
  - pose proof (target_Some _ _ _ Ht) as (Hal & _).
    rewrite first_with_id_target, target_moved_any, Ht by exact Hal.
    simpl. rewrite list_lookup_alter_eq, Hl. reflexivity.
  - apply bool_decide_eq_false in Eb.
    assert (Hs : Project.status p = newStatus).
    { destruct (decide (Project.status p = newStatus)) as [E|E];
        [exact E|]. destruct (Eb E). }
    rewrite Hp, <- Hs, with_status_same. reflexivity.
Qed.

Lemma moveProject_sets_status_witness :
  first_with_id (js "0.5")
    (after (moveProject (js "0.5") Finished)
       (after (run [AddListener 7; AddProject (Fin 5 (-1)) shed]) init))
  = Some (Project.with_status Finished
            (Project.mk (js "0.5") (js "Build shed")
               (js "Wooden shed construction") (of_Z 3) Active)).
Proof.
  apply (moveProject_sets_status (js "0.5") Finished
           (after (run [AddListener 7; AddProject (Fin 5 (-1)) shed]) init)).
  reflexivity.
Defined.

(** X11.  Moves of different ids commute: the two calls, in either order,
    leave the same world (same objects, same arrays handed out, same
    calls), whatever each of them finds. *)
Theorem moveProject_commute (id1 id2 : jsstring) (s1 s2 : ProjectStatus)
        (w : World) :
  id1 <> id2 ->
  after (moveProject id2 s2) (after (moveProject id1 s1) w)
  = after (moveProject id1 s1) (after (moveProject id2 s2) w).
Proof.
  intros Hne.
  rewrite (after_moveProject_effective id1 s1 w),
    (after_moveProject_effective id2 s2 w).
  destruct (effective id1 s1 w) as [l1|] eqn:E1;
    destruct (effective id2 s2 w) as [l2|] eqn:E2.
  - rewrite (after_moveProject_effective id2), (after_moveProject_effective id1).
    rewrite (effective_after_other id1 id2 s1 s2 w l1 Hne E1), E2.
    rewrite (effective_after_other id2 id1 s2 s1 w l2) by congruence.
    rewrite E1.
    destruct (effective_Some _ _ _ _ E1) as (Hal & _ & p1 & Hp1 & Hid1 & _).
    destruct (effective_Some _ _ _ _ E2) as (_ & _ & p2 & Hp2 & Hid2 & _).
    apply moved_twice_commute; [exact Hal|].
    intros ->. apply Hne. congruence.
  - rewrite (after_moveProject_effective id2), (after_moveProject_effective id1).
    rewrite (effective_after_other id1 id2 s1 s2 w l1 Hne E1), E2, E1.
    reflexivity.
  - rewrite (after_moveProject_effective id2), (after_moveProject_effective id1).
    rewrite (effective_after_other id2 id1 s2 s1 w l2) by congruence.
    rewrite E1, E2. reflexivity.
  - rewrite (after_moveProject_effective id2), (after_moveProject_effective id1).
    rewrite E1, E2. reflexivity.
Qed.

Lemma moveProject_commute_witness :
  let w := after (run [AddListener 7; AddProject (Fin 5 (-1)) shed;
                       AddProject (Fin 25 (-2)) shed]) init in
  after (moveProject (js "0.25") Finished)
    (after (moveProject (js "0.5") Finished) w)
  = after (moveProject (js "0.5") Finished)
      (after (moveProject (js "0.25") Finished) w).
Proof.
  apply (moveProject_commute (js "0.5") (js "0.25") Finished Finished
           (after (run [AddListener 7; AddProject (Fin 5 (-1)) shed;
                        AddProject (Fin 25 (-2)) shed]) init)).
  discriminate.
Defined.

(** X12.  Moving a record away and back is a round trip on the records:
    when the record meant by the id has status [s0] and is moved to another
    status and then back to [s0], all objects and the store's records are
    as they were; the listeners were called twice each. *)
Theorem moveProject_there_and_back (projectId : jsstring)
        (s : ProjectStatus) (w : World) (p : Project.t) :
  first_with_id projectId w = Some p ->
  Project.status p <> s ->
  let w1 := after (moveProject projectId s) w in
  let w2 := after (moveProject projectId (Project.status p)) w1 in
  objects w2 = objects w
  /\ store_records w2 = store_records w
  /\ (new_calls w w1).*1 = listeners w
  /\ (new_calls w1 w2).*1 = listeners w.
Proof.
  intros Hp Hst w1 w2.
  destruct (first_with_id_Some _ _ _ Hp) as (l & Ht & Hl).
  pose proof (target_Some _ _ _ Ht) as (Hal & _).
  assert (E1 : w1 = notified (moved l s w)).
  { subst w1. rewrite after_moveProject, Ht, Hl.
    rewrite bool_decide_eq_true_2 by exact Hst. reflexivity. }
  assert (Hal1 : allocated w1).
  { rewrite E1. unfold allocated in *. simpl. rewrite length_app. lia. }
  assert (E2 : w2 = notified (moved l (Project.status p) w1)).
  { assert (Ht1 : target projectId w1 = Some l).
    { rewrite E1, target_moved_any by exact Hal. exact Ht. }
    assert (Hl1 : objects w1 !! l = Some (Project.with_status s p)).
    { rewrite E1. simpl. rewrite list_lookup_alter_eq, Hl. reflexivity. }
    subst w2. rewrite after_moveProject, Ht1, Hl1.
    rewrite bool_decide_eq_true_2; [reflexivity|].
    simpl. congruence. }
  assert (Hobj : objects w2 = objects w).
  { rewrite E2, E1. simpl. rewrite list_alter_alter_eq.
    apply list_eq. intros i. rewrite list_lookup_alter.
    case_decide as Hi; [|reflexivity].
    subst i. rewrite Hl. simpl. destruct p. reflexivity. }
  assert (Hseq : store_seq w2 = store_seq w).
  { rewrite E2, store_seq_notified by exact Hal1.
    change (store_seq (moved l (Project.status p) w1)) with (store_seq w1).
    rewrite E1, store_seq_notified by exact Hal. reflexivity. }
  split; [exact Hobj|]. split.
  { unfold store_records, records.
    change (contents (projects w2) w2) with (store_seq w2).
    rewrite Hseq, Hobj. reflexivity. }
  split.
  - rewrite E1, new_calls_notified by reflexivity. apply zip_seq_fst.
  - rewrite E2, new_calls_notified by reflexivity. simpl.
    rewrite E1. apply zip_seq_fst.
Qed.

Lemma moveProject_there_and_back_witness :
  let w := after (run [AddListener 7; AddProject (Fin 5 (-1)) shed]) init in
  let w1 := after (moveProject (js "0.5") Finished) w in
  let w2 := after (moveProject (js "0.5") Active) w1 in
  objects w2 = objects w
  /\ store_records w2 = store_records w
  /\ (new_calls w w1).*1 = listeners w
  /\ (new_calls w1 w2).*1 = listeners w.
Proof.
  apply (moveProject_there_and_back (js "0.5") Finished
           (after (run [AddListener 7; AddProject (Fin 5 (-1)) shed]) init)
           (Project.mk (js "0.5") (js "Build shed")
              (js "Wooden shed construction") (of_Z 3) Active)).
  - reflexivity.
  - discriminate.
Defined.

(* ===================================================================== *)
(** ** More about the store over a run *)
(* ===================================================================== *)

Section RunFacts.

(** The store writes to no array it handed out: an operation only appends
    to its own array and allocates new ones. *)
Lemma exec_keeps_handed (o : Op) (w : World) (a : aref) :
  handed_out_once w -> a ∈ (calls w).*2 ->
  contents a (after (exec o) w) = contents a w
  /\ a ∈ (calls (after (exec o) w)).*2.
Proof.
  intros (Hal & Hall & Hnd) Ha.
  rewrite Forall_forall in Hall. destruct (Hall a Ha) as [Hlt Hne].
  destruct o as [fn|random obj|projectId newStatus]; simpl.
  - split; [reflexivity|exact Ha].
  - unfold after. rewrite addProject_allocated by exact Hal. split.
    + unfold contents. simpl. rewrite lookup_app_l by (rewrite length_alter; lia).
      rewrite list_lookup_alter_ne by congruence. reflexivity.
    + simpl. rewrite fmap_app. apply elem_of_app. left. exact Ha.
  - rewrite after_moveProject_effective.
    destruct (effective projectId newStatus w) as [l|]; [|split; [reflexivity|exact Ha]].
    split.
    + unfold contents. simpl. rewrite lookup_app_l by lia. reflexivity.
    + simpl. rewrite fmap_app. apply elem_of_app. left. exact Ha.
Qed.

Lemma fmap_core_alter (l : loc) (s : ProjectStatus) (xs : list Project.t) :
  core <$> alter (Project.with_status s) l xs = core <$> xs.
Proof.
  apply list_eq. intros i. rewrite !list_lookup_fmap, list_lookup_alter.
  case_decide as Hi; [|reflexivity].
  subst i. destruct (xs !! l); reflexivity.
Qed.

Lemma act_core (x : Action) (w : World) :
  core <$> objects (after (act x) w)
  = (core <$> objects w) ++ (core <$> created [x]).
Proof.
  destruct x as [[fn|random obj|projectId newStatus]|a xs|l s]; simpl.
  - rewrite app_nil_r. reflexivity.
  - destruct (addProject_any random obj w) as (-> & _).
    rewrite fmap_app. reflexivity.
  - rewrite app_nil_r, after_moveProject_effective.
    destruct (effective projectId newStatus w); [|reflexivity].
    simpl. apply fmap_core_alter.
  - rewrite app_nil_r. unfold after. destruct (bool_decide _); reflexivity.
  - rewrite app_nil_r. apply fmap_core_alter.
Qed.

Lemma created_cons (x : Action) (xs : list Action) :
  created (x :: xs) = created [x] ++ created xs.
Proof. destruct x as [[]| |]; reflexivity. Qed.

Lemma play_core (xs : list Action) :
  forall w,
    core <$> objects (after (play xs) w)
    = (core <$> objects w) ++ (core <$> created xs).
Proof.
  induction xs as [|x xs IH]; intros w.
  - simpl. rewrite app_nil_r. reflexivity.
  - rewrite play_cons, IH, act_core, (created_cons x xs), fmap_app, app_assoc.
    reflexivity.
Qed.

Lemma play_app (xs ys : list Action) (w : World) :
  after (play (xs ++ ys)) w = after (play ys) (after (play xs) w).
Proof.
  revert w. induction xs as [|x xs IH]; intros w; [reflexivity|].
  rewrite <- app_comm_cons, !play_cons. apply IH.
Qed.

(** In a well-formed world, a later record with the id of an earlier one
    is out of [moveProject]'s reach, and stays so. *)
Lemma exec_keeps_shadowed (o : Op) (w : World) (i j : nat)
      (p0 p : Project.t) :
  wf w -> i < j ->
  objects w !! i = Some p0 -> objects w !! j = Some p ->
  Project.id p0 = Project.id p ->
  objects (after (exec o) w) !! j = Some p
  /\ exists p0', objects (after (exec o) w) !! i = Some p0'
                 /\ Project.id p0' = Project.id p.
Proof.
  intros [Hal Hseq] Hij Hi Hj Hid.
  destruct o as [fn|random obj|projectId newStatus]; simpl.
  - split; [exact Hj|]. exists p0. split; assumption.
  - destruct (addProject_any random obj w) as (-> & _).
    split.
    + rewrite lookup_app_l by (apply lookup_lt_Some in Hj; exact Hj). exact Hj.
    + exists p0. split; [|exact Hid].
      rewrite lookup_app_l by (apply lookup_lt_Some in Hi; exact Hi). exact Hi.
  - rewrite after_moveProject_effective.
    destruct (effective projectId newStatus w) as [l|] eqn:E.
    2: { split; [exact Hj|]. exists p0. split; assumption. }
    destruct (effective_Some _ _ _ _ E) as (_ & Ht & q & Hq & Hqid & _).
    assert (Hlj : l <> j).
    { intros ->. unfold target, find in Ht. simpl in Ht.
      apply find_first in Ht as (k & Hk & _ & Hbefore).
      change (default [] (arrays w !! projects w)) with (store_seq w) in *.
      rewrite Hseq in Hk, Hbefore.
      apply lookup_seq in Hk as [Hk _]. simpl in Hk. subst k.
      specialize (Hbefore i i Hij).
      rewrite Hi in Hbefore.
      assert (Hlt : i < length (objects w))
        by (apply lookup_lt_Some in Hi; exact Hi).
      rewrite lookup_seq_lt in Hbefore by exact Hlt.
      specialize (Hbefore eq_refl).
      apply bool_decide_eq_false in Hbefore. apply Hbefore. congruence. }
    simpl. split.
    + rewrite list_lookup_alter_ne by exact Hlj. exact Hj.
    + rewrite list_lookup_alter. case_decide as Hli.
      * subst l. rewrite Hi. simpl. eexists. split; [reflexivity|exact Hid].
      * exists p0. split; assumption.
Qed.

End RunFacts.

(** X13.  The store never writes to an array it has handed out: whatever
    happened on the page, the elements of an array some listener was
    called with are the same after any further run of store operations. *)
Theorem handed_array_kept (acts : list Action) (ops : list Op)
        (fn : Listener) (a : aref) :
  let w := after (play acts) init in
  (fn, a) ∈ calls w ->
  contents a (after (run ops) w) = contents a w.
Proof.
  intros w Hin.
  assert (Hh : handed_out_once w) by apply (handed_play acts init handed_init).
  assert (Ha : a ∈ (calls w).*2).
  { apply list_elem_of_fmap. exists (fn, a). split; [reflexivity|exact Hin]. }
  clear Hin. generalize dependent w. induction ops as [|o ops IH]; intros w Hh Ha.
  - reflexivity.
  - rewrite run_cons.
    destruct (exec_keeps_handed o w a Hh Ha) as [Hc Ha'].
    rewrite IH; [exact Hc|apply handed_exec, Hh|exact Ha'].
Qed.

Lemma handed_array_kept_witness :
  let w := after (play [Store_call (AddListener 7);
                        Store_call (AddProject (Fin 5 (-1)) shed)]) init in
  contents 1
    (after (run [AddProject (Fin 25 (-2)) shed;
                 MoveProject (js "0.5") Finished]) w)
  = contents 1 w.
Proof.
  apply (handed_array_kept
           [Store_call (AddListener 7);
            Store_call (AddProject (Fin 5 (-1)) shed)]
           [AddProject (Fin 25 (-2)) shed; MoveProject (js "0.5") Finished]
           7 1).
  apply list_elem_of_here.
Defined.

(** X14.  Records are never removed, reordered or edited apart from their
    status: between any two moments of the page, the ids, titles,
    descriptions and people counts of the store's records are the old ones,
    in the old order, followed by those of the records [addProject]
    created in between, and the store's references are the old ones
    followed by the new ones. *)
Theorem records_append_only (before between : list Action) :
  let w := after (play before) init in
  let w' := after (play between) w in
  core <$> store_records w'
  = (core <$> store_records w) ++ (core <$> created between)
  /\ store_seq w'
     = store_seq w ++ seq (length (store_seq w)) (length (created between)).
Proof.
  intros w w'.
  assert (Hwf : wf w) by (apply wf_play; [apply handed_init|apply wf_init]).
  assert (Hh : handed_out_once w) by apply (handed_play before init handed_init).
  assert (Hwf' : wf w') by (apply wf_play; assumption).
  assert (Hcore : core <$> objects w'
                  = (core <$> objects w) ++ (core <$> created between))
    by apply play_core.
  split.
  - rewrite (wf_records w' Hwf'), (wf_records w Hwf). exact Hcore.
  - destruct Hwf as [_ Hs], Hwf' as [_ Hs']. rewrite Hs', Hs, length_seq.
    apply (f_equal length) in Hcore.
    rewrite length_app, !length_fmap in Hcore. rewrite Hcore.
    apply seq_app.
Qed.

(** X15.  When two records carry the same id (the random ids collided),
    the later one can never be moved: through any run of store operations
    it stays exactly as it is, since [moveProject] stops at the first
    record with the id. *)
Theorem later_duplicate_never_moves (acts : list Action) (ops : list Op)
        (i j : nat) (p0 p : Project.t) :
  let w := after (play acts) init in
  i < j ->
  store_records w !! i = Some p0 -> store_records w !! j = Some p ->
  Project.id p0 = Project.id p ->
  store_records (after (run ops) w) !! j = Some p.
Proof.
  intros w Hij Hi Hj Hid.
  assert (Hwf : wf w) by (apply wf_play; [apply handed_init|apply wf_init]).
  rewrite (wf_records w Hwf) in Hi, Hj.
  assert (Hgen : forall ops w p0,
             wf w -> objects w !! i = Some p0 -> objects w !! j = Some p ->
             Project.id p0 = Project.id p ->
             wf (after (run ops) w)
             /\ objects (after (run ops) w) !! j = Some p).
  { clear - Hij. intros ops.
    induction ops as [|o ops IH]; intros w p0 Hwf Hi Hj Hid.
    - split; assumption.
    - rewrite run_cons.
      destruct (exec_keeps_shadowed o w i j p0 p Hwf Hij Hi Hj Hid)
        as (Hj' & p0' & Hi' & Hid').
      apply (IH _ p0'); [apply wf_exec, Hwf|assumption..]. }
  destruct (Hgen ops w p0 Hwf Hi Hj Hid) as [Hwf' Hj'].
  rewrite (wf_records _ Hwf'). exact Hj'.
Qed.

Lemma later_duplicate_never_moves_witness :
  let w := after (play [Store_call (AddProject (Fin 5 (-1)) shed);
                        Store_call (AddProject (Fin 5 (-1)) shed)]) init in
  store_records
    (after (run [MoveProject (js "0.5") Finished; AddListener 7;
                 MoveProject (js "0.5") Active;
                 MoveProject (js "0.5") Finished]) w) !! 1
  = Some (Project.mk (js "0.5") (js "Build shed")
            (js "Wooden shed construction") (of_Z 3) Active).
Proof.
  apply (later_duplicate_never_moves
           [Store_call (AddProject (Fin 5 (-1)) shed);
            Store_call (AddProject (Fin 5 (-1)) shed)]
           [MoveProject (js "0.5") Finished; AddListener 7;
            MoveProject (js "0.5") Active; MoveProject (js "0.5") Finished]
           0 1
           (Project.mk (js "0.5") (js "Build shed")
              (js "Wooden shed construction") (of_Z 3) Active)
           (Project.mk (js "0.5") (js "Build shed")
              (js "Wooden shed construction") (of_Z 3) Active)).
  - lia.
  - reflexivity.
  - reflexivity.
  - reflexivity.
Defined.

(* ===================================================================== *)
(** ** The singleton accessor *)
(* ===================================================================== *)

(** The first call at the load of the page builds the store of [init]. *)
Lemma boot_world :
  Singleton.world_of (Singleton.getInstance Singleton.boot).2
    (Singleton.getInstance Singleton.boot).1 = Some init.
Proof. reflexivity. Qed.

(** X16.  [getInstance] is a singleton accessor: after a call the static
    field holds what the call returned; every later call returns that same
    instance and changes nothing, however many there are; a call builds an
    instance (empty listeners, a new empty array of projects) only when the
    field was unset, and otherwise returns the one that was there. *)
Theorem getInstance_singleton (r : Singleton.Realm) :
  let first := Singleton.getInstance r in
  Singleton.instance first.2 = Some first.1
  /\ Singleton.getInstance first.2 = first
  /\ (forall n, Singleton.getInstance_times (S n) r
                = (replicate (S n) first.1, first.2))
  /\ (forall k, Singleton.instance r = Some k -> first = (k, r))
  /\ (Singleton.instance r = None ->
      first.1 = length (Singleton.instances r)
      /\ Singleton.instances first.2
         = Singleton.instances r
           ++ [Singleton.mkInstance [] (length (Singleton.arrays r))]
      /\ Singleton.arrays first.2 = Singleton.arrays r ++ [[]]).
Proof.
  intros first.
  assert (H1 : Singleton.instance first.2 = Some first.1).
  { subst first. unfold Singleton.getInstance.
    destruct (Singleton.instance r) as [k|] eqn:E; simpl; [exact E|reflexivity]. }
  assert (H2 : Singleton.getInstance first.2 = first).
  { unfold Singleton.getInstance at 1. rewrite H1. destruct first. reflexivity. }
  split; [exact H1|]. split; [exact H2|]. split.
  { assert (Hrest : forall n, Singleton.getInstance_times n first.2
                              = (replicate n first.1, first.2)).
    { induction n as [|n IH]; [reflexivity|].
      cbn [Singleton.getInstance_times]. rewrite H2.
      destruct first as [i r1]. simpl in *. rewrite IH. reflexivity. }
    intros n. cbn [Singleton.getInstance_times]. fold first.
    destruct first as [i r1] eqn:Ef. simpl in *. rewrite Hrest. reflexivity. }
  split.
  - intros k Hk. subst first. unfold Singleton.getInstance. rewrite Hk.
    reflexivity.
  - intros Hn. subst first. unfold Singleton.getInstance. rewrite Hn.
    repeat split.
Qed.

(* ===================================================================== *)
(** ** The list views *)
(* ===================================================================== *)

Section ViewFacts.

Import ProjectList.

Lemma render_fold (w : World) (xs : list loc) :
  forall acc : list (list N),
    fold_left
      (fun listEl prjItem =>
         match objects w !! prjItem with
         | Some p => listEl ++ [Project.title p]
         | None => listEl
         end) xs acc
    = acc ++ omap (fun l => Project.title <$> objects w !! l) xs.
Proof.
  induction xs as [|x xs IH]; intros acc; simpl.
  - rewrite app_nil_r. reflexivity.
  - rewrite IH. destruct (objects w !! x); simpl.
    + rewrite <- app_assoc. reflexivity.
    + reflexivity.
Qed.

Lemma titles_of_filtered (w : World) (P : Project.t -> bool)
      (xs : list loc) :
  omap (fun l => Project.title <$> objects w !! l)
    (List.filter
       (fun l => match objects w !! l with Some p => P p | None => false end)
       xs)
  = Project.title <$> List.filter P (omap (fun l => objects w !! l) xs).
Proof.
  induction xs as [|x xs IH]; [reflexivity|].
  cbn [List.filter omap list_omap].
  destruct (objects w !! x) as [p|] eqn:E.
  - cbn [List.filter]. destruct (P p); [|exact IH].
    cbn [omap list_omap]. rewrite E. cbn [fmap option_fmap option_map].
    rewrite fmap_cons. f_equal. exact IH.
  - exact IH.
Qed.

Lemma relevant_wanted (this : ProjectList.t) (p : Project.t) :
  relevant this p = bool_decide (Project.status p = wanted (type this)).
Proof. unfold relevant, wanted. destruct (type this); reflexivity. Qed.

(** The listener shows what [view] says, for the array it is given. *)
Lemma listener_view (this : ProjectList.t) (a : aref) (w : World) :
  contents a w = store_seq w ->
  listener this a w = view (type this) w.
Proof.
  intros Ha. unfold listener, renderProjects, view.
  cbn [type assignedProjects]. rewrite render_fold, Ha. simpl.
  f_equal.
  - apply filter_ext_in. intros l _.
    destruct (objects w !! l); [apply relevant_wanted|reflexivity].
  - unfold store_records, records.
    change (contents (projects w) w) with (store_seq w).
    rewrite <- (titles_of_filtered w
                  (fun p => bool_decide (Project.status p = wanted (type this)))).
    f_equal. apply filter_ext_in. intros l _.
    destruct (objects w !! l); [apply relevant_wanted|reflexivity].
Qed.

Lemma filter_split_length (w : World) (xs : list loc) :
  length (List.filter
            (fun l => match objects w !! l with
                      | Some p => bool_decide (Project.status p = Active)
                      | None => false
                      end) xs)
  + length (List.filter
              (fun l => match objects w !! l with
                        | Some p => bool_decide (Project.status p = Finished)
                        | None => false
                        end) xs)
  = length (omap (fun l => objects w !! l) xs).
Proof.
  induction xs as [|x xs IH]; [reflexivity|].
  cbn [List.filter omap list_omap].
  destruct (objects w !! x) as [[? ? ? ? []]|]; simpl; lia.
Qed.

End ViewFacts.

(** X19.  The two lists split any array between them: called with the same
    array in the same world, whatever they held before, the active list
    and the finished list take each element that has an object exactly
    once between them, none twice; their sizes add up to the number of
    records of the array. *)
Theorem lists_partition (a : aref) (w : World) (xsA xsF : list loc)
        (itemsA itemsF : list (list N)) :
  let A := ProjectList.assignedProjects
             (ProjectList.listener
                (ProjectList.mk ProjectList.active xsA itemsA) a w) in
  let F := ProjectList.assignedProjects
             (ProjectList.listener
                (ProjectList.mk ProjectList.finished xsF itemsF) a w) in
  length A + length F = length (records a w)
  /\ (forall l, l ∈ A -> l ∉ F)
  /\ (forall l, l ∈ contents a w -> is_Some (objects w !! l) ->
                l ∈ A \/ l ∈ F).
Proof.
  intros A F. subst A F. unfold ProjectList.listener, ProjectList.renderProjects.
  cbn [ProjectList.assignedProjects ProjectList.type]. unfold ProjectList.relevant.
  cbn [ProjectList.type].
  split; [apply filter_split_length|]. split.
  - intros l HA HF.
    apply list_elem_of_In, filter_In in HA as [_ HA].
    apply list_elem_of_In, filter_In in HF as [_ HF].
    destruct (objects w !! l) as [p|]; [|discriminate].
    apply bool_decide_eq_true in HA. apply bool_decide_eq_true in HF.
    congruence.
  - intros l Hin [p Hp].
    destruct (Project.status p) eqn:Es.
    + left. apply list_elem_of_In, filter_In.
      split; [apply list_elem_of_In, Hin|]. rewrite Hp.
      apply bool_decide_eq_true_2, Es.
    + right. apply list_elem_of_In, filter_In.
      split; [apply list_elem_of_In, Hin|]. rewrite Hp.
      apply bool_decide_eq_true_2, Es.
Qed.

(* ===================================================================== *)
(** ** deepEqualCompare *)
(* ===================================================================== *)

Section CompareFacts.

Lemma num_equal_sym (x y : number) :
  match num_compare x y with Some Eq => true | _ => false end
  = match num_compare y x with Some Eq => true | _ => false end.
Proof.
  destruct x as [|[]|m1 e1], y as [|[]|m2 e2]; try reflexivity.
  unfold num_compare, compare_fin. rewrite (Z.min_comm e2 e1).
  rewrite (Z.compare_antisym (m1 * 10 ^ (e1 - Z.min e1 e2))
             (m2 * 10 ^ (e2 - Z.min e1 e2))).
  destruct (m1 * 10 ^ (e1 - Z.min e1 e2) ?= m2 * 10 ^ (e2 - Z.min e1 e2))%Z;
    reflexivity.
Qed.

End CompareFacts.

(** X20.  [deepEqualCompare] is strict equality, not a deep comparison: it
    is symmetric, false across types, and true of a value with itself
    except for [NaN], the one value it finds different from itself. *)
Theorem deepEqualCompare_strict (a b : Exercises.primitive) :
  Exercises.deepEqualCompare a b = Exercises.deepEqualCompare b a
  /\ (Exercises.deepEqualCompare a a = true <-> a <> Exercises.PNumber NaN)
  /\ (forall (s : jsstring) (x : bool) (n : number),
        Exercises.deepEqualCompare (Exercises.PString s) (Exercises.PBoolean x)
        = false
        /\ Exercises.deepEqualCompare (Exercises.PString s)
             (Exercises.PNumber n) = false
        /\ Exercises.deepEqualCompare (Exercises.PBoolean x)
             (Exercises.PNumber n) = false).
Proof.
  unfold Exercises.deepEqualCompare. split; [|split].
  - destruct a as [s|x|n], b as [t|y|m]; simpl; try reflexivity.
    + apply bool_decide_ext. split; congruence.
    + destruct x, y; reflexivity.
    + apply num_equal_sym.
  - destruct a as [s|x|n]; simpl.
    + rewrite bool_decide_eq_true_2 by reflexivity. split; [discriminate|reflexivity].
    + rewrite Bool.eqb_reflx. split; [discriminate|reflexivity].
    + destruct n as [|[]|m e]; simpl.
      * split; [discriminate|]. intros H. destruct H. reflexivity.
      * split; [discriminate|reflexivity].
      * split; [discriminate|reflexivity].
      * unfold compare_fin. rewrite Z.compare_refl.
        split; [discriminate|reflexivity].
  - intros s x n. repeat split.
Qed.

(* ===================================================================== *)
(** ** The page: lists called at the moment of the notification *)
(* ===================================================================== *)

Section PageFacts.

Lemma view_ext (k : ProjectList.kind) (w1 w2 : World) :
  objects w1 = objects w2 -> store_seq w1 = store_seq w2 ->
  view k w1 = view k w2.
Proof.
  intros Ho Hs. unfold view, store_records, records.
  change (contents (projects w1) w1) with (store_seq w1).
  change (contents (projects w2) w2) with (store_seq w2).
  rewrite Ho, Hs. reflexivity.
Qed.

Lemma view_notified (k : ProjectList.kind) (w : World) :
  allocated w -> view k (notified w) = view k w.
Proof.
  intros Hal. apply view_ext; [reflexivity|apply store_seq_notified, Hal].
Qed.

Lemma refresh_keys (ls : list Listener) (w : World)
      (lists : list (Listener * ProjectList.t)) :
  (refresh ls w lists).*1 = lists.*1.
Proof.
  unfold refresh. induction lists as [|[g c] lists IH]; [reflexivity|].
  cbn [map]. rewrite !fmap_cons, IH.
  destruct (bool_decide _); reflexivity.
Qed.

Lemma refresh_ext (ls : list Listener) (w1 w2 : World)
      (lists : list (Listener * ProjectList.t)) :
  (forall k, view k w1 = view k w2) -> refresh ls w1 lists = refresh ls w2 lists.
Proof.
  intros H. unfold refresh. apply map_ext. intros [g c].
  rewrite H. reflexivity.
Qed.

(** One turn of the loop of [updateListeners] on the page. *)
Lemma page_notify_one (fn : Listener) (pg : Page.t) :
  allocated (Page.world pg) ->
  let w := Page.world pg in
  let w1 := set_calls (calls w ++ [(fn, length (arrays w))])
              (set_arrays (arrays w ++ [store_seq w]) w) in
  Page.bind (Page.lift this_projects) (fun ps =>
    Page.bind (Page.lift (elements ps)) (fun xs =>
      Page.bind (Page.lift (new_array xs)) (fun copy =>
        Page.call fn copy))) pg
  = (tt, Page.mk w1 (refresh [fn] w (Page.lists pg))).
Proof.
  intros Hal w w1. destruct pg as [w0 lists]. simpl in *. subst w.
  unfold Page.bind, Page.lift, Page.call. simpl.
  f_equal. f_equal. unfold refresh. apply map_ext. intros [g c].
  cbn [fst snd].
  destruct (Nat.eqb_spec g fn) as [->|Hne].
  - rewrite bool_decide_eq_true_2 by apply list_elem_of_here.
    f_equal.
    change (after (call fn (length (arrays w0)))
              (set_arrays
                 (arrays w0 ++ [default [] (arrays w0 !! projects w0)]) w0))
      with w1.
    assert (Hs : store_seq w1 = store_seq w0).
    { unfold store_seq, contents, w1. simpl.
      rewrite lookup_app_l by exact Hal. reflexivity. }
    rewrite (listener_view c (length (arrays w0)) w1).
    + apply view_ext; [reflexivity|exact Hs].
    + rewrite Hs. unfold contents, w1. simpl.
      rewrite list_lookup_middle by reflexivity. reflexivity.
  - rewrite bool_decide_eq_false_2; [reflexivity|].
    intros H. apply list_elem_of_singleton in H. congruence.
Qed.

Lemma refresh_cons (fn : Listener) (ls : list Listener) (w : World)
      (lists : list (Listener * ProjectList.t)) :
  refresh ls w (refresh [fn] w lists) = refresh (fn :: ls) w lists.
Proof.
  unfold refresh. rewrite map_map. apply map_ext. intros [g c]. cbn [fst snd].
  destruct (decide (g = fn)) as [->|Hne].
  - rewrite (bool_decide_eq_true_2 (fn ∈ [fn])) by apply list_elem_of_here.
    rewrite (bool_decide_eq_true_2 (fn ∈ fn :: ls)) by apply list_elem_of_here.
    cbn [fst snd]. destruct (bool_decide (fn ∈ ls)); reflexivity.
  - rewrite (bool_decide_eq_false_2 (g ∈ [fn])).
    2: { intros H. apply list_elem_of_singleton in H. congruence. }
    cbn [fst snd]. destruct (bool_decide (g ∈ ls)) eqn:E.
    + apply bool_decide_eq_true in E.
      rewrite bool_decide_eq_true_2; [reflexivity|].
      apply list_elem_of_further, E.
    + apply bool_decide_eq_false in E.
      rewrite bool_decide_eq_false_2; [reflexivity|].
      intros H. apply elem_of_cons in H as [H|H]; [congruence|exact (E H)].
Qed.

Lemma refresh_nil (w : World) (lists : list (Listener * ProjectList.t)) :
  refresh [] w lists = lists.
Proof.
  unfold refresh. rewrite <- (map_id lists) at 2. apply map_ext.
  intros [g c]. rewrite bool_decide_eq_false_2; [reflexivity|].
  apply not_elem_of_nil.
Qed.

(** The loop of [updateListeners] on the page. *)
Lemma page_notify_loop (ls : list Listener) :
  forall pg,
    allocated (Page.world pg) ->
    Page.after (Page.for_of ls (fun listenerFn =>
      Page.bind (Page.lift this_projects) (fun ps =>
        Page.bind (Page.lift (elements ps)) (fun xs =>
          Page.bind (Page.lift (new_array xs)) (fun copy =>
            Page.call listenerFn copy))))) pg
    = Page.mk
        (mkWorld (objects (Page.world pg))
           (arrays (Page.world pg)
              ++ replicate (length ls) (store_seq (Page.world pg)))
           (listeners (Page.world pg)) (projects (Page.world pg))
           (calls (Page.world pg)
              ++ zip ls (seq (length (arrays (Page.world pg))) (length ls)))
           (console (Page.world pg)))
        (refresh ls (Page.world pg) (Page.lists pg)).
Proof.
  induction ls as [|fn ls IH]; intros pg Hal.
  - destruct pg as [[] lists]. unfold Page.after. simpl.
    rewrite !app_nil_r, refresh_nil. reflexivity.
  - unfold Page.after in *. cbn [Page.for_of]. unfold Page.bind at 1.
    rewrite (page_notify_one fn pg Hal). cbv zeta.
    set (w := Page.world pg) in *.
    set (w1 := set_calls _ _).
    set (pg1 := Page.mk w1 _).
    assert (Hal1 : allocated (Page.world pg1)).
    { unfold allocated, pg1, w1 in *. simpl. rewrite length_app. simpl. lia. }
    rewrite (IH pg1 Hal1). unfold pg1. cbn [Page.world Page.lists].
    assert (Hs : store_seq w1 = store_seq w).
    { unfold store_seq, contents, w1. simpl.
      rewrite lookup_app_l by exact Hal. reflexivity. }
    rewrite Hs.
    rewrite (refresh_ext ls w1 w) by (intros k; apply view_ext; [reflexivity|exact Hs]).
    rewrite refresh_cons.
    unfold w1. simpl. rewrite length_app. simpl.
    rewrite <- !app_assoc. simpl.
    replace (length (arrays w) + 1) with (S (length (arrays w))) by lia.
    reflexivity.
Qed.

(** [updateListeners] on the page: the world is notified as before, and
    the lists registered show the view of the world. *)
Lemma page_updateListeners (pg : Page.t) :
  allocated (Page.world pg) ->
  Page.after Page.updateListeners pg
  = Page.mk (notified (Page.world pg))
      (refresh (listeners (Page.world pg)) (notified (Page.world pg))
         (Page.lists pg)).
Proof.
  intros Hal.
  pose proof (page_notify_loop (listeners (Page.world pg)) pg Hal) as H.
  unfold Page.updateListeners, Page.after in *.
  unfold Page.bind at 1. unfold Page.lift at 1. unfold this_listeners at 1.
  cbn [fst snd].
  replace (Page.mk (Page.world pg) (Page.lists pg)) with pg
    by (destruct pg; reflexivity).
  etransitivity; [exact H|].
  rewrite (refresh_ext _ (notified (Page.world pg)) (Page.world pg))
    by (intros k; apply view_notified, Hal).
  reflexivity.
Qed.

Lemma page_addProject (random : number) (obj : UserInput.t) (pg : Page.t) :
  allocated (Page.world pg) ->
  Page.after (Page.addProject random obj) pg
  = Page.mk (notified (pushed random obj (Page.world pg)))
      (refresh (listeners (Page.world pg))
         (notified (pushed random obj (Page.world pg))) (Page.lists pg)).
Proof.
  intros Hal.
  pose proof (page_updateListeners
                (Page.mk (pushed random obj (Page.world pg)) (Page.lists pg))
                (pushed_allocated random obj _ Hal)) as H.
  destruct pg as [w lists]. exact H.
Qed.

Lemma page_moveProject (projectId : jsstring) (newStatus : ProjectStatus)
      (pg : Page.t) :
  Page.after (Page.moveProject projectId newStatus) pg
  = match effective projectId newStatus (Page.world pg) with
    | Some l =>
        Page.mk (notified (moved l newStatus (Page.world pg)))
          (refresh (listeners (Page.world pg))
             (notified (moved l newStatus (Page.world pg))) (Page.lists pg))
    | None => pg
    end.
Proof.
  destruct pg as [w lists]. cbn [Page.world Page.lists].
  unfold Page.after, Page.moveProject.
  unfold Page.bind at 1. unfold Page.lift at 1. unfold this_projects at 1.
  unfold Page.bind at 1. unfold Page.lift at 1. cbn [Page.world Page.lists].
  destruct (effective projectId newStatus w) as [l0|] eqn:E.
  - destruct (effective_Some _ _ _ _ E) as (Hal & Ht & p & Hp & _ & Hst).
    unfold target in Ht.
    destruct (find (projects w) _ w) as [cur w0] eqn:Ef.
    assert (w0 = w) by (unfold find in Ef; congruence). subst w0.
    simpl in Ht. subst cur.
    unfold Page.bind at 1. unfold Page.lift at 1. unfold read_status at 1.
    cbn [Page.world Page.lists]. rewrite Hp. cbn [fmap option_fmap option_map].
    rewrite bool_decide_eq_true_2 by exact Hst.
    exact (page_updateListeners (Page.mk (moved l0 newStatus w) lists) Hal).
  - unfold effective, target in E.
    destruct (find (projects w) _ w) as [cur w0] eqn:Ef.
    assert (w0 = w) by (unfold find in Ef; congruence). subst w0.
    simpl in E. destruct cur as [l|]; [|reflexivity].
    unfold Page.bind at 1. unfold Page.lift at 1. unfold read_status at 1.
    cbn [Page.world Page.lists].
    destruct (objects w !! l) as [p|]; [|reflexivity].
    cbn [fmap option_fmap option_map].
    destruct (bool_decide (Project.status p <> newStatus)); [discriminate|].
    reflexivity.
Qed.

End PageFacts.

Section PageReach.

Lemma moved_changes (l : loc) (s : ProjectStatus) (w : World) (p : Project.t) :
  objects w !! l = Some p -> Project.status p <> s ->
  objects (notified (moved l s w)) <> objects w.
Proof.
  intros Hp Hst H. simpl in H.
  assert (E : alter (Project.with_status s) l (objects w) !! l
              = Some (Project.with_status s p)).
  { rewrite list_lookup_alter_eq, Hp. reflexivity. }
  rewrite H, Hp in E. injection E as E.
  apply Hst. rewrite E. reflexivity.
Qed.

(** A call of the store on the page: the world moves as in the store
    alone; either the objects are as they were and so are the lists, or
    the objects changed and the registered lists show the view of the new
    world. *)
Lemma page_exec_cases (o : Op) (pg : Page.t) :
  allocated (Page.world pg) ->
  (objects (after (exec o) (Page.world pg)) = objects (Page.world pg)
   /\ Page.after (Page.exec o) pg
      = Page.mk (after (exec o) (Page.world pg)) (Page.lists pg))
  \/ (objects (after (exec o) (Page.world pg)) <> objects (Page.world pg)
      /\ Page.after (Page.exec o) pg
         = Page.mk (after (exec o) (Page.world pg))
             (refresh (listeners (Page.world pg))
                (after (exec o) (Page.world pg)) (Page.lists pg))).
Proof.
  intros Hal. destruct o as [fn|random obj|projectId newStatus]; cbn [Page.exec exec].
  - left. destruct pg as [w lists]. split; reflexivity.
  - right. rewrite page_addProject by exact Hal.
    unfold after. rewrite addProject_allocated by exact Hal.
    cbn [snd]. split; [|reflexivity].
    simpl. intros H. apply (f_equal length) in H. rewrite length_app in H.
    simpl in H. lia.
  - rewrite page_moveProject, after_moveProject_effective.
    destruct (effective projectId newStatus (Page.world pg)) as [l|] eqn:E.
    + right. destruct (effective_Some _ _ _ _ E) as (_ & _ & p & Hp & _ & Hst).
      split; [|reflexivity].
      apply (moved_changes l newStatus _ p Hp Hst).
    + left. split; [reflexivity|]. destruct pg; reflexivity.
Qed.

(** The handler on the page, case by case. *)
Lemma page_submitHandler (random : number) (this : ProjectInput.t)
      (pg : Page.t) :
  Page.submitHandler random this pg
  = if ProjectInput.accepts this
    then (ProjectInput.clearInputs this,
          Page.after
            (Page.addProject random
               (UserInput.mk (ProjectInput.titleInputEl this)
                  (ProjectInput.descriptionInputEl this)
                  (StringToNumber (ProjectInput.peopleInputEl this)))) pg)
    else (this,
          Page.mk
            (set_console (console (Page.world pg) ++ [js "Input is wrong!"])
               (Page.world pg))
            (Page.lists pg)).
Proof.
  unfold Page.submitHandler. unfold Page.bind at 1. unfold Page.lift at 1.
  rewrite gatherUserInput_accepts.
  destruct (ProjectInput.accepts this); [|reflexivity].
  unfold Page.after, Page.bind.
  replace (Page.mk (Page.world pg) (Page.lists pg)) with pg
    by (destruct pg; reflexivity).
  destruct (Page.addProject _ _ pg) as [[] pg']. reflexivity.
Qed.

Lemma page_ok_start : page_ok Page.start.
Proof.
  split; [apply wf_init|]. split; [apply handed_init|]. apply Forall_nil_2.
Qed.

Lemma page_ok_exec (o : Op) (pg : Page.t) :
  page_ok pg -> page_ok (Page.after (Page.exec o) pg).
Proof.
  intros (Hwf & Hh & Hk).
  assert (Hk' : Forall (fun fn => fn ∈ listeners (after (exec o) (Page.world pg)))
                  (Page.lists pg).*1).
  { eapply Forall_impl; [exact Hk|].
    intros fn Hfn. apply exec_listeners, Hfn. }
  destruct (page_exec_cases o pg (proj1 Hwf)) as [[_ ->]|[_ ->]];
    (split; [apply wf_exec, Hwf|]); (split; [apply handed_exec, Hh|]);
    cbn [Page.world Page.lists]; [exact Hk'|].
  rewrite refresh_keys. exact Hk'.
Qed.

Lemma page_ok_step (e : Page.Event) (pg : Page.t) :
  page_ok pg -> page_ok (Page.after (Page.step e) pg).
Proof.
  intros Hok. pose proof Hok as (Hwf & Hh & Hk).
  destruct e as [k|random this|x].
  - destruct pg as [w lists]. unfold Page.after, Page.step, Page.bind,
      Page.new_ProjectList, Page.ret. cbn [fst snd Page.world Page.lists] in *.
    split; [exact (wf_exec (AddListener _) w Hwf)|].
    split; [exact (handed_exec (AddListener _) w Hh)|].
    cbn [Page.world Page.lists]. rewrite fmap_app. apply Forall_app. split.
    + eapply Forall_impl; [exact Hk|]. intros fn Hfn.
      unfold after, addListener. simpl. apply elem_of_app. left. exact Hfn.
    + apply Forall_singleton. unfold after, addListener. simpl.
      apply elem_of_app. right. apply list_elem_of_here.
  - unfold Page.after, Page.step, Page.bind.
    rewrite page_submitHandler.
    destruct (ProjectInput.accepts this).
    + cbn [fst snd]. exact (page_ok_exec (AddProject random _) pg Hok).
    + cbn [fst snd]. split; [exact Hwf|]. split; [|exact Hk].
      revert Hh. apply handed_same; reflexivity.
  - destruct x as [o|a xs|l s].
    + exact (page_ok_exec o pg Hok).
    + destruct pg as [w lists]. unfold Page.after, Page.step, Page.lift.
      cbn [Page.world Page.lists] in *.
      pose proof (wf_act (Consumer_array a xs) w Hh Hwf) as Hwf'.
      pose proof (handed_act (Consumer_array a xs) w Hh) as Hh'.
      unfold after in Hwf', Hh'.
      destruct (act (Consumer_array a xs) w) as [[] w'] eqn:E.
      cbn [fst snd Page.world Page.lists] in *.
      split; [exact Hwf'|]. split; [exact Hh'|].
      assert (Hl : listeners w' = listeners w).
      { simpl in E. destruct (bool_decide _); injection E as <-; reflexivity. }
      cbn [Page.world Page.lists]. rewrite Hl. exact Hk.
    + destruct pg as [w lists]. unfold Page.after, Page.step, Page.lift.
      cbn [Page.world Page.lists fst snd act assign_status] in *.
      split; [exact (wf_act (Consumer_status l s) w Hh Hwf)|].
      split; [exact (handed_act (Consumer_status l s) w Hh)|exact Hk].
Qed.

Lemma page_play_cons (e : Page.Event) (es : list Page.Event) (pg : Page.t) :
  Page.after (Page.play (e :: es)) pg
  = Page.after (Page.play es) (Page.after (Page.step e) pg).
Proof.
  unfold Page.after, Page.play. simpl. unfold Page.bind.
  destruct (Page.step e pg) as [[] pg1]. reflexivity.
Qed.

(** Every page that can be reached is in order. *)
Lemma page_ok_play (es : list Page.Event) :
  forall pg, page_ok pg -> page_ok (Page.after (Page.play es) pg).
Proof.
  induction es as [|e es IH]; intros pg Hok; [exact Hok|].
  rewrite page_play_cons. apply IH, page_ok_step, Hok.
Qed.

(** When a record is pushed, an active list gains it at the end and a
    finished list gains nothing. *)
Lemma view_pushed (k : ProjectList.kind) (random : number)
      (obj : UserInput.t) (w : World) :
  wf w ->
  view k (pushed random obj w)
  = ProjectList.mk k
      (ProjectList.assignedProjects (view k w)
         ++ match k with
            | ProjectList.active => [length (objects w)]
            | ProjectList.finished => []
            end)
      (ProjectList.items (view k w)
         ++ match k with
            | ProjectList.active => [UserInput.title obj]
            | ProjectList.finished => []
            end).
Proof.
  intros Hwf.
  assert (Hwf' : wf (pushed random obj w)) by apply wf_pushed, Hwf.
  unfold view. rewrite (wf_records _ Hwf'), (wf_records w Hwf).
  rewrite (store_seq_pushed random obj w) by apply Hwf.
  destruct Hwf as [Hal Hseq].
  cbn [ProjectList.assignedProjects ProjectList.items].
  change (objects (pushed random obj w))
    with (objects w ++ [fresh_project random obj]).
  rewrite !List.filter_app, fmap_app. f_equal.
  - f_equal.
    + apply filter_ext_in. intros l Hl. rewrite Hseq in Hl.
      apply in_seq in Hl. rewrite lookup_app_l by lia. reflexivity.
    + cbn [List.filter]. rewrite list_lookup_middle by reflexivity.
      destruct k; reflexivity.
  - f_equal. destruct k; reflexivity.
Qed.

End PageReach.

(** X8.  An accepted submission, on any page that can be reached (lists
    built, earlier submissions accepted or rejected, store calls, consumer
    actions), appends to the store exactly one record, [Active], whose
    title and description are the fields as typed (validation trims, the
    record is not trimmed) and whose people count is the converted number;
    it calls every registered listener once and empties the fields. *)
Theorem accepted_submission_stored (events : list Page.Event)
        (random : number) (this : ProjectInput.t) :
  let pg := Page.after (Page.play events) Page.start in
  let result := Page.submitHandler random this pg in
  ProjectInput.accepts this = true ->
  store_records (Page.world result.2)
  = store_records (Page.world pg)
    ++ [Project.mk (NumberToString random) (ProjectInput.titleInputEl this)
          (ProjectInput.descriptionInputEl this)
          (StringToNumber (ProjectInput.peopleInputEl this)) Active]
  /\ (new_calls (Page.world pg) (Page.world result.2)).*1
     = listeners (Page.world pg)
  /\ result.1 = ProjectInput.mk [] [] [].
Proof.
  intros pg result Hacc. subst result.
  pose proof (page_ok_play events Page.start page_ok_start) as (Hwf & _ & _).
  fold pg in Hwf.
  rewrite page_submitHandler, Hacc. cbn [fst snd].
  rewrite page_addProject by apply Hwf. cbn [Page.world].
  set (obj := UserInput.mk _ _ _).
  assert (E : notified (pushed random obj (Page.world pg))
              = after (addProject random obj) (Page.world pg)).
  { unfold after. rewrite addProject_allocated by apply Hwf. reflexivity. }
  rewrite E. split.
  { exact (store_records_addProject random obj (Page.world pg) Hwf). }
  split; [apply addProject_any|reflexivity].
Qed.

Lemma accepted_submission_stored_witness :
  let this := ProjectInput.mk (js " Shed ") (js "  Wooden")
                (js "5.0000000000000001") in
  let before := ProjectInput.mk (js "") (js "Wooden") (js "2") in
  let pg := Page.after
              (Page.play [Page.New_list ProjectList.active;
                          Page.Submit (Fin 25 (-2)) before]) Page.start in
  let result := Page.submitHandler (Fin 5 (-1)) this pg in
  store_records (Page.world result.2)
  = store_records (Page.world pg)
    ++ [Project.mk (js "0.5") (js " Shed ") (js "  Wooden") (Fin 5 0) Active]
  /\ (new_calls (Page.world pg) (Page.world result.2)).*1
     = listeners (Page.world pg)
  /\ result.1 = ProjectInput.mk [] [] [].
Proof.
  apply (accepted_submission_stored
           [Page.New_list ProjectList.active;
            Page.Submit (Fin 25 (-2))
              (ProjectInput.mk (js "") (js "Wooden") (js "2"))]
           (Fin 5 (-1))
           (ProjectInput.mk (js " Shed ") (js "  Wooden")
              (js "5.0000000000000001"))).
  vm_compute. reflexivity.
Defined.

(** X17.  A list follows the store.  On any page that can be reached,
    after a call of the store that changes the objects, every list of the
    page shows, whatever it showed before, exactly the store's records
    that have its status, in the store's order: their references in
    [assignedProjects], their titles as its items.  The lists run their
    listeners when [updateListeners] calls them, so this rests on the
    store changing its records before it notifies. *)
Theorem view_follows_store (events : list Page.Event) (o : Op) :
  let pg := Page.after (Page.play events) Page.start in
  let pg' := Page.after (Page.exec o) pg in
  objects (Page.world pg') <> objects (Page.world pg) ->
  Page.world pg' = after (exec o) (Page.world pg)
  /\ (Page.lists pg').*1 = (Page.lists pg).*1
  /\ Forall (fun entry =>
               entry.2 = view (ProjectList.type entry.2) (Page.world pg'))
       (Page.lists pg').
Proof.
  intros pg pg' Hch.
  pose proof (page_ok_play events Page.start page_ok_start) as (Hwf & _ & Hk).
  fold pg in Hwf, Hk.
  assert (E : pg' = Page.mk (after (exec o) (Page.world pg))
                      (refresh (listeners (Page.world pg))
                         (after (exec o) (Page.world pg)) (Page.lists pg))).
  { destruct (page_exec_cases o pg (proj1 Hwf)) as [[Hsame E]|[_ E]];
      [|exact E].
    exfalso. apply Hch. subst pg'. rewrite E. exact Hsame. }
  rewrite E. cbn [Page.world Page.lists].
  split; [reflexivity|]. split; [apply refresh_keys|].
  unfold refresh. apply Forall_forall. intros entry Hin.
  apply list_elem_of_In, in_map_iff in Hin as ([g c] & <- & Hin).
  cbn [fst snd]. rewrite bool_decide_eq_true_2; [reflexivity|].
  rewrite Forall_forall in Hk. apply Hk.
  apply list_elem_of_fmap. exists (g, c). split; [reflexivity|].
  apply list_elem_of_In, Hin.
Qed.

Lemma view_follows_store_witness :
  let pg := Page.after
              (Page.play [Page.Submit (Fin 5 (-1))
                            (ProjectInput.mk (js "Shed") (js "Wooden")
                               (js "2"))]) Page.loaded in
  let pg' := Page.after (Page.exec (MoveProject (js "0.5") Finished)) pg in
  Page.world pg' = after (exec (MoveProject (js "0.5") Finished)) (Page.world pg)
  /\ (Page.lists pg').*1 = (Page.lists pg).*1
  /\ Forall (fun entry =>
               entry.2 = view (ProjectList.type entry.2) (Page.world pg'))
       (Page.lists pg').
Proof.
  apply (view_follows_store
           [Page.New_list ProjectList.active;
            Page.New_list ProjectList.finished;
            Page.Submit (Fin 5 (-1))
              (ProjectInput.mk (js "Shed") (js "Wooden") (js "2"))]
           (MoveProject (js "0.5") Finished)).
  vm_compute. discriminate.
Defined.

(** X18.  A submitted project shows in the active lists only.  On any
    page that can be reached, after an accepted submission every active
    list holds what it ought to show of the store before, followed by the
    new project, whose item is the title as typed; every finished list
    holds what it ought to show of the store before, and so not the new
    project. *)
Theorem submitted_project_shown (events : list Page.Event) (random : number)
        (this : ProjectInput.t) :
  let pg := Page.after (Page.play events) Page.start in
  let pg' := (Page.submitHandler random this pg).2 in
  ProjectInput.accepts this = true ->
  (Page.lists pg').*1 = (Page.lists pg).*1
  /\ Forall (fun entry =>
       match ProjectList.type entry.2 with
       | ProjectList.active =>
           ProjectList.assignedProjects entry.2
           = ProjectList.assignedProjects
               (view ProjectList.active (Page.world pg))
             ++ [length (objects (Page.world pg))]
           /\ ProjectList.items entry.2
              = ProjectList.items (view ProjectList.active (Page.world pg))
                ++ [ProjectInput.titleInputEl this]
       | ProjectList.finished =>
           entry.2 = view ProjectList.finished (Page.world pg)
           /\ length (objects (Page.world pg))
                ∉ ProjectList.assignedProjects entry.2
       end) (Page.lists pg').
Proof.
  intros pg pg' Hacc.
  pose proof (page_ok_play events Page.start page_ok_start) as (Hwf & _ & Hk).
  fold pg in Hwf, Hk.
  subst pg'. rewrite page_submitHandler, Hacc. cbn [snd].
  rewrite page_addProject by apply Hwf. cbn [Page.lists].
  set (obj := UserInput.mk _ _ _).
  split; [apply refresh_keys|].
  unfold refresh. apply Forall_forall. intros entry Hin.
  apply list_elem_of_In, in_map_iff in Hin as ([g c] & <- & Hin).
  cbn [fst snd]. rewrite bool_decide_eq_true_2.
  2: { rewrite Forall_forall in Hk. apply Hk.
       apply list_elem_of_fmap. exists (g, c). split; [reflexivity|].
       apply list_elem_of_In, Hin. }
  cbn [snd].
  rewrite view_notified by apply pushed_allocated, Hwf.
  rewrite (view_pushed _ random obj (Page.world pg) Hwf).
  cbn [ProjectList.type ProjectList.assignedProjects ProjectList.items].
  destruct (ProjectList.type c); [split; reflexivity|].
  rewrite !app_nil_r. split.
  - unfold view. reflexivity.
  - cbn [ProjectList.assignedProjects]. intros H.
    apply list_elem_of_In, filter_In in H as [H _].
    destruct Hwf as [_ Hseq]. rewrite Hseq in H. apply in_seq in H. lia.
Qed.

Lemma submitted_project_shown_witness :
  let this := ProjectInput.mk (js "Shed") (js "Wooden") (js "2") in
  let pg := Page.loaded in
  let pg' := (Page.submitHandler (Fin 5 (-1)) this pg).2 in
  (Page.lists pg').*1 = (Page.lists pg).*1
  /\ Forall (fun entry =>
       match ProjectList.type entry.2 with
       | ProjectList.active =>
           ProjectList.assignedProjects entry.2
           = ProjectList.assignedProjects
               (view ProjectList.active (Page.world pg))
             ++ [length (objects (Page.world pg))]
           /\ ProjectList.items entry.2
              = ProjectList.items (view ProjectList.active (Page.world pg))
                ++ [js "Shed"]
       | ProjectList.finished =>
           entry.2 = view ProjectList.finished (Page.world pg)
           /\ length (objects (Page.world pg))
                ∉ ProjectList.assignedProjects entry.2
       end) (Page.lists pg').
Proof.
  apply (submitted_project_shown
           [Page.New_list ProjectList.active;
            Page.New_list ProjectList.finished]
           (Fin 5 (-1))
           (ProjectInput.mk (js "Shed") (js "Wooden") (js "2"))).
  vm_compute. reflexivity.
Defined.
